(** * The in-memory B-tree of basefs ([btree.c])

    A shallow embedding of [btree.c] over an explicit kernel heap, and the
    properties of its create / destroy / search / insert / print
    operations.

    Layout of the development:
    - [Module Kernel]: the heap, [kzalloc]/[kfree], [printk] and the
      state-and-fault monad in which the C functions are written;
    - [Module Btree]: the functions of [btree.c], statement by statement;
    - [Module Pure]: a functional B-tree used as the abstraction in proofs;
    - [Module Rep]: the representation relation between a heap and an
      address-labelled tree;
    - the facts about the functional tree, the refinement lemmas that
      relate the C functions to it, and the theorems about the
      operations: first those numbered C1 to C10, then further ones,
      numbered X1 to X13. *)

From Stdlib Require Import ZArith NArith Lia.
From stdpp Require Import gmap list strings pretty sorting.

#[local] Open Scope Z_scope.
Set Warnings "-register-all".

(** ** Constants of [btree.c] *)

Definition BTREE_ORDER : Z := 4.
Definition BTREE_MAX_KEYS : Z := BTREE_ORDER - 1.
Definition BTREE_MIN_KEYS : Z := Z.quot BTREE_MAX_KEYS 2.

(** Keys are [u64] values.  The code only copies and compares them
    ([<], [==], [>]); no arithmetic is ever done on a key, so there is
    no wrap-around to write out. *)
Abbreviation u64 := N (only parsing).

(** Pointers are addresses; [NULL] is address 0. *)
Abbreviation ptr := nat (only parsing).
Definition NULL : ptr := 0%nat.

(** [struct btree_node].  [num_keys] is a C [int]; the arrays are the
    fixed-size arrays [keys[BTREE_MAX_KEYS]] and [children[BTREE_ORDER]]. *)
Record btree_node := Build_node {
  is_leaf : bool;
  num_keys : Z;
  keys : list u64;
  children : list ptr
}.

(** [struct btree_root]. *)
Record btree_root := Build_root { root : ptr }.

Inductive object :=
| Onode (n : btree_node)
| Oroot (r : btree_root).

(** What [kzalloc(sizeof(...))] hands out: zero-filled objects. *)
Definition zero_node : btree_node :=
  Build_node false 0 (replicate (Z.to_nat BTREE_MAX_KEYS) 0%N)
                     (replicate (Z.to_nat BTREE_ORDER) NULL).
Definition zero_root : btree_root := Build_root NULL.

Module Kernel.

Inductive loglevel := KERN_INFO | KERN_CONT.

(** The machine state: the heap of allocated objects, the outcomes of
    the coming [kzalloc] calls ([true] = that call returns [NULL]; once
    the list is used up every call succeeds) and the kernel log. *)
Record mem := Build_mem {
  heap : gmap nat object;
  kzalloc_fails : list bool;
  dmesg : list (loglevel * string)
}.

Inductive fault :=
| NullDeref       (* access through a NULL pointer *)
| BadPointer      (* access through a pointer to no live object of the type *)
| OutOfBounds.    (* array index outside the array *)

Inductive result (A : Type) :=
| Ok (a : A) (m : mem)
| Fault (f : fault)
| OutOfFuel.
Arguments Ok {A} a m.
Arguments Fault {A} f.
Arguments OutOfFuel {A}.

Definition M (A : Type) : Type := mem → result A.

Definition ret {A} (a : A) : M A := λ m, Ok a m.
Definition bind {A B} (c : M A) (k : A → M B) : M B :=
  λ m, match c m with
       | Ok a m' => k a m'
       | Fault f => Fault f
       | OutOfFuel => OutOfFuel
       end.
Definition out_of_fuel {A} : M A := λ _, OutOfFuel.

Definition set_heap (h : gmap nat object) (m : mem) : mem :=
  Build_mem h (kzalloc_fails m) (dmesg m).

(** [kzalloc(size, GFP_KERNEL)]: [NULL] when the allocation fails,
    otherwise the address of a fresh zero-filled object. *)
Definition kzalloc (zero : object) : M nat :=
  λ m, match kzalloc_fails m with
       | true :: rest => Ok NULL (Build_mem (heap m) rest (dmesg m))
       | plan =>
           let p := fresh ({[NULL]} ∪ dom (heap m)) in
           Ok p (Build_mem (<[p := zero]> (heap m)) (tail plan) (dmesg m))
       end.

(** [kfree(p)]: nothing for [NULL]. *)
Definition kfree (p : nat) : M unit :=
  λ m, if decide (p = NULL) then Ok tt m
       else match heap m !! p with
            | Some _ => Ok tt (set_heap (delete p (heap m)) m)
            | None => Fault BadPointer
            end.

Definition printk (lvl : loglevel) (s : string) : M unit :=
  λ m, Ok tt (Build_mem (heap m) (kzalloc_fails m) (dmesg m ++ [(lvl, s)])).

Definition load_node (p : nat) : M btree_node :=
  λ m, if decide (p = NULL) then Fault NullDeref
       else match heap m !! p with
            | Some (Onode n) => Ok n m
            | _ => Fault BadPointer
            end.

Definition store_node (p : nat) (n : btree_node) : M unit :=
  λ m, if decide (p = NULL) then Fault NullDeref
       else match heap m !! p with
            | Some (Onode _) => Ok tt (set_heap (<[p := Onode n]> (heap m)) m)
            | _ => Fault BadPointer
            end.

Definition load_root (p : nat) : M btree_root :=
  λ m, if decide (p = NULL) then Fault NullDeref
       else match heap m !! p with
            | Some (Oroot r) => Ok r m
            | _ => Fault BadPointer
            end.

Definition store_root (p : nat) (r : btree_root) : M unit :=
  λ m, if decide (p = NULL) then Fault NullDeref
       else match heap m !! p with
            | Some (Oroot _) => Ok tt (set_heap (<[p := Oroot r]> (heap m)) m)
            | _ => Fault BadPointer
            end.

(** [a[i]] as an rvalue and [a[i] = v], for a C array [a]. *)
Definition index {A} (a : list A) (i : Z) : M A :=
  λ m, if decide (0 ≤ i)
       then match a !! Z.to_nat i with
            | Some x => Ok x m
            | None => Fault OutOfBounds
            end
       else Fault OutOfBounds.

Definition update {A} (a : list A) (i : Z) (v : A) : M (list A) :=
  λ m, if decide (0 ≤ i < Z.of_nat (length a))
       then Ok (<[Z.to_nat i := v]> a) m
       else Fault OutOfBounds.

End Kernel.

Import Kernel.

(** [a > b] on keys, decided as the C comparison does. *)
#[global] Instance N_gt_dec (a b : N) : Decision (a > b)%N.
Proof. unfold N.gt. apply _. Defined.

Declare Scope cmd_scope.
Delimit Scope cmd_scope with cmd.
Notation "x <- c ; k" := (bind c (λ x, k))
  (at level 100, c at next level, right associativity,
   format "'[v' x  <-  c ; '/' k ']'") : cmd_scope.
Notation "c ;; k" := (bind c (λ _, k))
  (at level 100, right associativity,
   format "'[v' c ;; '/' k ']'") : cmd_scope.
#[local] Open Scope cmd_scope.

(** ** Field accesses [p->field] *)

Definition get_is_leaf (p : ptr) : M bool :=
  n <- load_node p; ret (is_leaf n).
Definition get_num_keys (p : ptr) : M Z :=
  n <- load_node p; ret (num_keys n).
Definition get_keys (p : ptr) (i : Z) : M u64 :=
  n <- load_node p; index (keys n) i.
Definition get_children (p : ptr) (i : Z) : M ptr :=
  n <- load_node p; index (children n) i.

Definition set_is_leaf (p : ptr) (b : bool) : M unit :=
  n <- load_node p;
  store_node p (Build_node b (num_keys n) (keys n) (children n)).
Definition set_num_keys (p : ptr) (v : Z) : M unit :=
  n <- load_node p;
  store_node p (Build_node (is_leaf n) v (keys n) (children n)).
Definition set_keys (p : ptr) (i : Z) (v : u64) : M unit :=
  n <- load_node p;
  ks <- update (keys n) i v;
  store_node p (Build_node (is_leaf n) (num_keys n) ks (children n)).
Definition set_children (p : ptr) (i : Z) (v : ptr) : M unit :=
  n <- load_node p;
  cs <- update (children n) i v;
  store_node p (Build_node (is_leaf n) (num_keys n) (keys n) cs).

Definition get_root (t : ptr) : M ptr :=
  r <- load_root t; ret (root r).
Definition set_root (t : ptr) (v : ptr) : M unit :=
  _ <- load_root t; store_root t (Build_root v).

(** ** The functions of [btree.c]

    Loops and recursive calls take a [fuel] bound; running out of it is
    the outcome [OutOfFuel], never a result.  [int] variables are [Z]: an
    [int] is only ever a key count or an index next to one, and every
    array access is bounds-checked, so the values stay far from the ends
    of the [int] range whenever the run does not fault. *)

Module Btree.

(** [btree_init] *)
Definition btree_init : M ptr :=
  tree <- kzalloc (Oroot zero_root);
  if decide (tree = NULL) then ret NULL else
  root_node <- kzalloc (Onode zero_node);
  if decide (root_node = NULL) then
    kfree tree;;
    ret NULL
  else
    set_is_leaf root_node true;;
    set_num_keys root_node 0;;
    set_root tree root_node;;
    ret tree.

(** [btree_free_node]; [free_children] is its loop
    [for (i = 0; i <= node->num_keys; i++)]. *)
Fixpoint btree_free_node (fuel : nat) (node : ptr) : M unit :=
  match fuel with
  | O => out_of_fuel
  | S fuel =>
      let fix free_children (n : nat) (i : Z) : M unit :=
        match n with
        | O => out_of_fuel
        | S n =>
            nk <- get_num_keys node;
            if decide (i ≤ nk) then
              c <- get_children node i;
              (if decide (c ≠ NULL) then btree_free_node fuel c else ret tt);;
              free_children n (i + 1)
            else ret tt
        end in
      lf <- get_is_leaf node;
      (if negb lf then free_children fuel 0 else ret tt);;
      kfree node
  end.

(** [btree_destroy] *)
Definition btree_destroy (fuel : nat) (tree : ptr) : M unit :=
  if decide (tree = NULL) then ret tt else
  r <- get_root tree;
  (if decide (r ≠ NULL) then btree_free_node fuel r else ret tt);;
  kfree tree.

(** The [for] loop of [btree_search]: [None] is the [return true] inside
    the loop, [Some i] the value of [i] when the loop is left. *)
Fixpoint search_for (fuel : nat) (node : ptr) (key : u64) (i : Z)
  : M (option Z) :=
  match fuel with
  | O => out_of_fuel
  | S fuel =>
      nk <- get_num_keys node;
      if decide (i < nk) then
        ki <- get_keys node i;
        if decide (key < ki)%N then ret (Some i)
        else if decide (key = ki) then ret None
        else search_for fuel node key (i + 1)
      else ret (Some i)
  end.

(** The [while (1)] loop of [btree_search]. *)
Fixpoint search_while (fuel : nat) (node : ptr) (key : u64) : M bool :=
  match fuel with
  | O => out_of_fuel
  | S fuel =>
      r <- search_for fuel node key 0;
      match r with
      | None => ret true
      | Some i =>
          lf <- get_is_leaf node;
          if lf then ret false
          else
            c <- get_children node i;
            search_while fuel c key
      end
  end.

(** [btree_search] *)
Definition btree_search (fuel : nat) (tree : ptr) (key : u64) : M bool :=
  if decide (tree = NULL) then ret false else
  r <- get_root tree;
  if decide (r = NULL) then ret false else
  search_while fuel r key.

(** The four loops of [btree_split_child]. *)
Fixpoint copy_keys (fuel : nat) (new_node full_child : ptr) (mid i : Z)
  : M unit :=
  match fuel with
  | O => out_of_fuel
  | S fuel =>
      nk <- get_num_keys new_node;
      if decide (i < nk) then
        k <- get_keys full_child (i + mid + 1);
        set_keys new_node i k;;
        copy_keys fuel new_node full_child mid (i + 1)
      else ret tt
  end.

Fixpoint copy_children (fuel : nat) (new_node full_child : ptr) (mid i : Z)
  : M unit :=
  match fuel with
  | O => out_of_fuel
  | S fuel =>
      nk <- get_num_keys new_node;
      if decide (i ≤ nk) then
        c <- get_children full_child (i + mid + 1);
        set_children new_node i c;;
        copy_children fuel new_node full_child mid (i + 1)
      else ret tt
  end.

Fixpoint shift_children (fuel : nat) (parent : ptr) (index i : Z) : M unit :=
  match fuel with
  | O => out_of_fuel
  | S fuel =>
      if decide (i >= index + 1) then
        c <- get_children parent i;
        set_children parent (i + 1) c;;
        shift_children fuel parent index (i - 1)
      else ret tt
  end.

Fixpoint shift_keys (fuel : nat) (parent : ptr) (index i : Z) : M unit :=
  match fuel with
  | O => out_of_fuel
  | S fuel =>
      if decide (i >= index) then
        k <- get_keys parent i;
        set_keys parent (i + 1) k;;
        shift_keys fuel parent index (i - 1)
      else ret tt
  end.

(** [btree_split_child] *)
Definition btree_split_child (fuel : nat) (parent : ptr) (index : Z)
  : M unit :=
  full_child <- get_children parent index;
  let mid := Z.quot BTREE_MAX_KEYS 2 in
  new_node <- kzalloc (Onode zero_node);
  if decide (new_node = NULL) then ret tt else
  lf <- get_is_leaf full_child;
  set_is_leaf new_node lf;;
  set_num_keys new_node (BTREE_MAX_KEYS - mid - 1);;
  copy_keys fuel new_node full_child mid 0;;
  lf <- get_is_leaf full_child;
  (if negb lf then copy_children fuel new_node full_child mid 0
   else ret tt);;
  set_num_keys full_child mid;;
  nk <- get_num_keys parent;
  shift_children fuel parent index nk;;
  set_children parent (index + 1) new_node;;
  nk <- get_num_keys parent;
  shift_keys fuel parent index (nk - 1);;
  k <- get_keys full_child mid;
  set_keys parent index k;;
  nk <- get_num_keys parent;
  set_num_keys parent (nk + 1).

(** The two [while] loops of [btree_insert_nonfull]; each returns the
    final value of [i]. *)
Fixpoint leaf_shift (fuel : nat) (node : ptr) (key : u64) (i : Z) : M Z :=
  match fuel with
  | O => out_of_fuel
  | S fuel =>
      if decide (i >= 1) then
        k <- get_keys node (i - 1);
        if decide (key < k)%N then
          set_keys node i k;;
          leaf_shift fuel node key (i - 1)
        else ret i
      else ret i
  end.

Fixpoint child_scan (fuel : nat) (node : ptr) (key : u64) (i : Z) : M Z :=
  match fuel with
  | O => out_of_fuel
  | S fuel =>
      if decide (i >= 1) then
        k <- get_keys node (i - 1);
        if decide (key < k)%N then child_scan fuel node key (i - 1)
        else ret i
      else ret i
  end.

(** The internal-node part of [btree_insert_nonfull] up to the recursive
    call: the scan for the child, the split of a full child and the
    choice between the two halves.  It returns the slot recursed into. *)
Definition descend_slot (fuel : nat) (node : ptr) (key : u64) (i : Z)
  : M Z :=
  i <- child_scan fuel node key i;
  c <- get_children node i;
  cnk <- get_num_keys c;
  if decide (cnk = BTREE_MAX_KEYS) then
    btree_split_child fuel node i;;
    k <- get_keys node i;
    if decide (key > k)%N then ret (i + 1) else ret i
  else ret i.

(** [btree_insert_nonfull] *)
Fixpoint btree_insert_nonfull (fuel : nat) (node : ptr) (key : u64)
  : M unit :=
  match fuel with
  | O => out_of_fuel
  | S fuel =>
      i <- get_num_keys node;
      lf <- get_is_leaf node;
      if lf then
        i <- leaf_shift fuel node key i;
        set_keys node i key;;
        nk <- get_num_keys node;
        set_num_keys node (nk + 1)
      else
        i <- descend_slot fuel node key i;
        c <- get_children node i;
        btree_insert_nonfull fuel c key
  end.

(** [btree_insert] *)
Definition btree_insert (fuel : nat) (tree : ptr) (key : u64) : M unit :=
  if decide (tree = NULL) then ret tt else
  r <- get_root tree;
  if decide (r = NULL) then ret tt else
  nk <- get_num_keys r;
  if decide (nk = BTREE_MAX_KEYS) then
    new_root <- kzalloc (Onode zero_node);
    if decide (new_root = NULL) then ret tt else
    set_is_leaf new_root false;;
    set_num_keys new_root 0;;
    set_children new_root 0 r;;
    btree_split_child fuel new_root 0;;
    btree_insert_nonfull fuel new_root key;;
    set_root tree new_root
  else
    btree_insert_nonfull fuel r key.

(** [printk] pieces: a newline, the padding that ["%*s"] gives for an
    empty string, and (in [print_keys]) ["%llu"] as the decimal key. *)
Definition nl : string := String (Ascii.ascii_of_nat 10) "".
Definition pad (level : Z) : string :=
  String.concat "" (replicate (Z.to_nat (level * 4)) " "%string).

Fixpoint print_keys (fuel : nat) (node : ptr) (l r : string) (i : Z)
  : M unit :=
  match fuel with
  | O => out_of_fuel
  | S fuel =>
      nk <- get_num_keys node;
      if decide (i < nk) then
        k <- get_keys node i;
        printk KERN_CONT (l +:+ pretty k +:+ r);;
        print_keys fuel node l r (i + 1)
      else ret tt
  end.

(** [btree_print_recursive] *)
Fixpoint btree_print_recursive (fuel : nat) (node : ptr) (level : Z)
  : M unit :=
  match fuel with
  | O => out_of_fuel
  | S fuel =>
      let fix print_children (n : nat) (i : Z) : M unit :=
        match n with
        | O => out_of_fuel
        | S n =>
            nk <- get_num_keys node;
            if decide (i ≤ nk) then
              c <- get_children node i;
              btree_print_recursive fuel c (level + 1);;
              print_children n (i + 1)
            else ret tt
        end in
      if decide (node = NULL) then ret tt else
      lf <- get_is_leaf node;
      if lf then
        printk KERN_INFO (pad level +:+ "Leaf Node: ");;
        print_keys fuel node "" " " 0;;
        printk KERN_CONT nl
      else
        printk KERN_INFO (pad level +:+ "Internal Node: ");;
        print_keys fuel node "[" "] " 0;;
        printk KERN_CONT nl;;
        print_children fuel 0
  end.

(** [btree_print] *)
Definition btree_print (fuel : nat) (tree : ptr) : M unit :=
  let empty := printk KERN_INFO ("B+ Tree is empty." +:+ nl) in
  if decide (tree = NULL) then empty else
  r <- get_root tree;
  if decide (r = NULL) then empty else
  printk KERN_INFO ("---- B+ Tree Print (in-order) ----" +:+ nl);;
  btree_print_recursive fuel r 0;;
  printk KERN_INFO ("-----------------------------------" +:+ nl).

End Btree.

Import Btree.

(** ** Running a sequence of operations *)

Definition empty_mem : mem := Build_mem ∅ [] [].

(** [btree_insert] of each key in turn. *)
Fixpoint insert_all (fuel : nat) (tree : ptr) (ks : list u64) : M unit :=
  match ks with
  | [] => ret tt
  | k :: ks => btree_insert fuel tree k;; insert_all fuel tree ks
  end.

(** Create a tree in the empty machine and insert [ks] into it. *)
Definition build (fuel : nat) (ks : list u64) : M ptr :=
  tree <- btree_init;
  insert_all fuel tree ks;;
  ret tree.

(** ** A functional B-tree

    The abstraction used in the proofs: a node is its leaf flag, its live
    keys and its live children.  The functions below follow the C
    functions on this representation; [Module Rep] proves that the C code
    computes them. *)

Module Pure.

#[local] Open Scope nat_scope.
#[local] Open Scope N_scope.

Inductive bt := Bt (leaf : bool) (ks : list N) (cs : list bt).

Definition leaf (t : bt) : bool := let 'Bt lf _ _ := t in lf.
Definition nkeys (t : bt) : list N := let 'Bt _ ks _ := t in ks.
Definition kids (t : bt) : list bt := let 'Bt _ _ cs := t in cs.

Fixpoint height (t : bt) : nat :=
  let 'Bt _ _ cs := t in S (foldr (λ c h, height c `max` h)%nat 0%nat cs).

Definition MAX : nat := Z.to_nat BTREE_MAX_KEYS.
Definition MID : nat := Z.to_nat (Z.quot BTREE_MAX_KEYS 2).

Definition full (t : bt) : Prop := length (nkeys t) = MAX.

(** The slot both [while] loops of [btree_insert_nonfull] stop at:
    scanning from the right, the position after the last key that is
    not greater than [k]. *)
Fixpoint slot (ks : list N) (k : N) : nat :=
  match ks with
  | [] => 0%nat
  | x :: ks' =>
      match slot ks' k with
      | O => if decide (k < x) then 0%nat else 1%nat
      | S s => S (S s)
      end
  end.

Definition insert_at {A} (i : nat) (x : A) (l : list A) : list A :=
  take i l ++ x :: drop i l.

(** [btree_split_child] on [parent] at slot [i]. *)
Definition split_child (parent : bt) (i : nat) : bt :=
  match kids parent !! i with
  | None => parent
  | Some (Bt lf ks cs) =>
      let left := Bt lf (take MID ks) (take (S MID) cs) in
      let right := Bt lf (drop (S MID) ks) (drop (S MID) cs) in
      Bt (leaf parent)
         (insert_at i (default 0 (ks !! MID)) (nkeys parent))
         (take i (kids parent) ++ left :: right :: drop (S i) (kids parent))
  end.

(** [btree_insert_nonfull], to depth [d]. *)
Fixpoint insert_nonfull (d : nat) (t : bt) (k : N) : bt :=
  match d with
  | O => t
  | S d =>
      if leaf t then
        Bt true (insert_at (slot (nkeys t) k) k (nkeys t)) (kids t)
      else
        let i := slot (nkeys t) k in
        match kids t !! i with
        | None => t
        | Some c =>
            if decide (full c) then
              let t' := split_child t i in
              let j := if decide (k > default 0 (nkeys t' !! i))
                       then S i else i in
              Bt false (nkeys t') (alter (λ c, insert_nonfull d c k) j (kids t'))
            else
              Bt false (nkeys t) (alter (λ c, insert_nonfull d c k) i (kids t))
        end
  end.

(** [btree_insert] on the root node. *)
Definition insert (d : nat) (t : bt) (k : N) : bt :=
  if decide (full t)
  then insert_nonfull d (split_child (Bt false [] [t]) 0) k
  else insert_nonfull d t k.

(** The [for] loop of [btree_search]: [None] when the key is met. *)
Fixpoint search_slot (ks : list N) (k : N) : option nat :=
  match ks with
  | [] => Some 0%nat
  | x :: ks' =>
      if decide (k < x) then Some 0%nat
      else if decide (k = x) then None
      else S <$> search_slot ks' k
  end.

(** [btree_search] from a node, to depth [d]. *)
Fixpoint search (d : nat) (t : bt) (k : N) : bool :=
  match d with
  | O => false
  | S d =>
      match search_slot (nkeys t) k with
      | None => true
      | Some i =>
          if leaf t then false
          else match kids t !! i with
               | Some c => search d c k
               | None => false
               end
      end
  end.

(** In-order listing of the keys of a subtree. *)
Fixpoint interleave (ls : list (list N)) (ks : list N) : list N :=
  match ls, ks with
  | l :: ls', k :: ks' => l ++ k :: interleave ls' ks'
  | l :: ls', [] => l ++ concat ls'
  | [], _ => ks
  end.

Fixpoint inorder (t : bt) : list N :=
  let 'Bt _ ks cs := t in interleave (inorder <$> cs) ks.

(** Well-formed nodes: a leaf has no child, an internal node one child
    more than keys, no node more than [MAX] keys. *)
Inductive shape : bt → Prop :=
| shape_leaf ks :
    (length ks ≤ MAX)%nat → shape (Bt true ks [])
| shape_node ks cs :
    (length ks ≤ MAX)%nat → length cs = S (length ks) →
    Forall shape cs → shape (Bt false ks cs).

(** Every node below the root holds at least [BTREE_MIN_KEYS] keys. *)
Inductive min_keys : bt → Prop :=
| min_keys_intro t :
    Forall (λ c, (Z.to_nat BTREE_MIN_KEYS ≤ length (nkeys c))%nat ∧ min_keys c)
           (kids t) →
    min_keys t.

(** The order invariant as a property of one node, and of every node of
    a tree.  [lt] is the relation between a key stored in [children[i]]
    and [keys[i]]; every key in [children[i+1]] is at least [keys[i]]. *)
Definition order_at (lt : N → N → Prop) (t : bt) : Prop :=
  ∀ (i : nat) (k : N), nkeys t !! i = Some k →
    (∀ c x, kids t !! i = Some c → x ∈ inorder c → lt x k) ∧
    (∀ c x, kids t !! S i = Some c → x ∈ inorder c → k ≤ x).

Inductive order_inv (lt : N → N → Prop) : bt → Prop :=
| order_inv_intro t :
    order_at lt t → Forall (order_inv lt) (kids t) → order_inv lt t.

End Pure.

(** * Notions used to state the properties *)

Import Pure.

(** ** Listings *)

(** The keys listed before the child [j] of a node, and from its child
    [j] on (the child itself left out). *)
Definition before (ls : list (list N)) (ks : list N) (j : nat) : list N :=
  interleave (take j ls) (take j ks).

Definition after (ls : list (list N)) (ks : list N) (j : nat) : list N :=
  interleave ([] :: drop (S j) ls) (drop j ks).

Abbreviation sorted := (StronglySorted N.le).

(** Where [k] lands in the listing: [inserted t t' k]. *)
Definition inserted (t t' : bt) (k : N) : Prop :=
  ∃ l1 l2,
    inorder t = l1 ++ l2 ∧ inorder t' = l1 ++ k :: l2 ∧
    (sorted (inorder t) →
     Forall (λ x, (x ≤ k)%N) l1 ∧ Forall (λ x, (k ≤ x)%N) l2).

(** ** Trees in the heap *)

Module Rep.

(** A functional tree whose nodes carry the address they live at. *)
Inductive ptree := Pt (a : nat) (lf : bool) (ks : list N) (cs : list ptree).

Definition addr (t : ptree) : nat := let 'Pt a _ _ _ := t in a.

Fixpoint erase (t : ptree) : bt :=
  let 'Pt _ lf ks cs := t in Bt lf ks (erase <$> cs).

(** Every address of the tree, the root's first. *)
Fixpoint addrs (t : ptree) : list nat :=
  let 'Pt a _ _ cs := t in a :: mjoin (addrs <$> cs).

(** [rep h t]: the heap [h] holds the tree [t].  At the address of each
    node there is a [btree_node] with the node's leaf flag, with
    [num_keys] the number of its keys, with its keys in the first
    [num_keys] slots of [keys] and the addresses of its children in the
    first slots of [children]. *)
Inductive rep (h : gmap nat object) : ptree → Prop :=
| rep_node a lf ks cs n :
    a ≠ NULL →
    h !! a = Some (Onode n) →
    is_leaf n = lf →
    num_keys n = Z.of_nat (length ks) →
    length (keys n) = Z.to_nat BTREE_MAX_KEYS →
    length (children n) = Z.to_nat BTREE_ORDER →
    take (length ks) (keys n) = ks →
    take (length cs) (children n) = addr <$> cs →
    Forall (rep h) cs →
    rep h (Pt a lf ks cs).

(** [h'] keeps every object of [h] that lies outside [fp]. *)
Definition frame (h h' : gmap nat object) (fp : list nat) : Prop :=
  ∀ p o, h !! p = Some o → p ∉ fp → h' !! p = Some o.

(** Every address in [new] is in [old] or was free in [h]. *)
Definition grown (h : gmap nat object) (new old : list nat) : Prop :=
  ∀ p, p ∈ new → p ∈ old ∨ h !! p = None.

End Rep.

Import Rep.

(** [tree_at m tree t]: in the state [m] the handle [tree] owns the
    tree [t]. *)
Definition tree_at (m : mem) (tree : nat) (t : ptree) : Prop :=
  tree ≠ NULL ∧
  heap m !! tree = Some (Oroot (Build_root (addr t))) ∧
  rep (heap m) t ∧ NoDup (addrs t).

(** [extends h h' old new]: going from the heap [h] to [h'] the tree
    kept its addresses [old] among its addresses [new], and every object
    of [h'] was in [h] already or is at one of the addresses [new]. *)
Definition extends (h h' : gmap nat object) (old new : list nat) : Prop :=
  (∀ p, p ∈ old → p ∈ new) ∧
  (∀ p, is_Some (h' !! p) → is_Some (h !! p) ∨ p ∈ new).

(** ** Trees built by insertions *)

(** What holds of the state [m] and the handle [tree] after the keys [ks]
    were inserted into a new tree, [t] being the tree in the heap. *)
Record built (ks : list N) (tree : nat) (m : mem) (t : ptree) : Prop := {
  built_tree : tree_at m tree t;
  built_plan : kzalloc_fails m = [];
  built_shape : shape (erase t);
  built_height : (height (erase t) ≤ S (length ks))%nat;
  built_sorted : sorted (inorder (erase t));
  built_keys : inorder (erase t) ≡ₚ ks;
  built_min : min_keys (erase t)
}.

(** The state [m] with the outcomes of the coming allocations replaced. *)
Definition with_fails (pl : list bool) (m : mem) : mem :=
  Build_mem (heap m) pl (dmesg m).

(** What a call hands back to its caller, when it returns. *)
Definition returned {A} (r : result A) : option A :=
  match r with Ok a _ => Some a | _ => None end.

Definition final {A} (r : result A) : option mem :=
  match r with Ok _ m => Some m | _ => None end.

(** The state of the examples: the keys 10, 20, 30, 40, 50 were inserted.
    The root (at address 3) holds [20] and has the children [10] (at 2)
    and [30; 40; 50] (at 4). *)
Definition example_heap : gmap nat object :=
  <[1%nat := Oroot (Build_root 3)]>
  (<[2%nat := Onode (Build_node true 1 [10; 20; 30]%N [NULL; NULL; NULL; NULL])]>
  (<[3%nat := Onode (Build_node false 1 [20; 0; 0]%N [2%nat; 4%nat; NULL; NULL])]>
  (<[4%nat := Onode (Build_node true 3 [30; 40; 50]%N [NULL; NULL; NULL; NULL])]>
   ∅))).

(** A full single-leaf tree: the keys 10, 20, 30 were inserted. *)
Definition full_root_heap : gmap nat object :=
  <[1%nat := Oroot (Build_root 2)]>
  (<[2%nat := Onode (Build_node true 3 [10; 20; 30]%N [NULL; NULL; NULL; NULL])]> ∅).

(** The tree of [example_heap]. *)
Definition example_tree : ptree :=
  Pt 3 false [20]%N [Pt 2 true [10]%N []; Pt 4 true [30; 40; 50]%N []].

(** ** Balance *)

(** [levels d t]: every leaf of [t] is the [d]-th node on the path from
    the root of [t] to it. *)
Fixpoint levels (d : nat) (t : bt) : Prop :=
  match d with
  | O => False
  | S d' => if leaf t then d' = 0%nat else Forall (levels d') (kids t)
  end.

(** ** Calls that leave the state alone *)

(** [read_only c]: when [c] returns, the state is the one it was started
    in. *)
Definition read_only {A} (c : M A) : Prop :=
  ∀ m, match c m with Ok _ m' => m' = m | _ => True end.

(** [log_only c]: when [c] returns, the heap and the outcomes of the
    coming allocations are as before, and the log has only grown. *)
Definition log_only {A} (c : M A) : Prop :=
  ∀ m, match c m with
       | Ok _ m' =>
           heap m' = heap m ∧ kzalloc_fails m' = kzalloc_fails m ∧
           ∃ l, dmesg m' = dmesg m ++ l
       | _ => True
       end.

(** [freed h h' l]: the heap [h'] is [h] without the objects at the
    addresses [l]. *)
Definition freed (h h' : gmap nat object) (l : list nat) : Prop :=
  (∀ p, p ∈ l → h' !! p = None) ∧ (∀ p, p ∉ l → h' !! p = h !! p).

(** ** What [btree_print] logs *)

(** The log entries of [print_keys] for the keys [ks]. *)
Definition render_keys (l r : string) (ks : list N)
  : list (loglevel * string) :=
  (λ k, (KERN_CONT, l +:+ pretty k +:+ r)) <$> ks.

(** The log entries of [btree_print_recursive] for a subtree at [level]:
    the line of the node, then the entries of its children from left to
    right, one level deeper. *)
Fixpoint render (t : bt) (level : Z) : list (loglevel * string) :=
  let 'Bt lf ks cs := t in
  if lf then
    (KERN_INFO, pad level +:+ "Leaf Node: ")
      :: render_keys "" " " ks ++ [(KERN_CONT, nl)]
  else
    (KERN_INFO, pad level +:+ "Internal Node: ")
      :: render_keys "[" "] " ks ++ [(KERN_CONT, nl)]
      ++ mjoin ((λ c, render c (level + 1)) <$> cs).

(** * Properties of the functional tree *)

Set Warnings "-clear-no-such-hyp".
#[local] Open Scope nat_scope.

(** Induction with the hypothesis for every child. *)
Lemma bt_ind' (P : bt → Prop) :
  (∀ lf ks cs, Forall P cs → P (Bt lf ks cs)) → ∀ t, P t.
Proof.
  intros step. fix IH 1. intros [lf ks cs]. apply step.
  induction cs as [|c cs IHcs]; constructor; [apply IH | exact IHcs].
Qed.

Lemma MAX_val : MAX = 3.
Proof. reflexivity. Qed.
Lemma MID_val : MID = 1.
Proof. reflexivity. Qed.

Section slot_facts.

Implicit Types (ks : list N) (k : N).

Lemma slot_le ks k : slot ks k ≤ length ks.
Proof.
  induction ks as [|x ks IH]; simpl; [lia|].
  destruct (slot ks k); [case_decide; lia | lia].
Qed.

Lemma slot_drop ks k : Forall (λ x, (k < x)%N) (drop (slot ks k) ks).
Proof.
  induction ks as [|x ks IH]; simpl; [constructor|].
  destruct (slot ks k) as [|s] eqn:E; simpl in *.
  - case_decide; simpl; [by constructor | done].
  - done.
Qed.

Lemma slot_prev ks k j :
  slot ks k = S j → ∃ x, ks !! j = Some x ∧ (x ≤ k)%N.
Proof.
  revert j. induction ks as [|x ks IH]; simpl; [done|]. intros j.
  destruct (slot ks k) as [|s] eqn:E.
  - case_decide; [done|]. intros [= <-]. exists x. split; [done | lia].
  - intros [= <-]. destruct (IH s eq_refl) as (y & ? & ?). eauto.
Qed.

Lemma search_slot_found ks k : search_slot ks k = None → k ∈ ks.
Proof.
  induction ks as [|x ks IH]; simpl; [done|].
  repeat case_decide; try done; [set_solver|].
  destruct (search_slot ks k); [done|]. set_solver.
Qed.

Lemma search_slot_stop ks k i :
  search_slot ks k = Some i →
  i ≤ length ks ∧ Forall (λ x, (x < k)%N) (take i ks) ∧
  (∀ x, ks !! i = Some x → (k < x)%N).
Proof.
  revert i. induction ks as [|x ks IH]; simpl; intros i.
  - intros [= <-]. split_and!; [lia | constructor | done].
  - repeat case_decide; try done.
    + intros [= <-]. split_and!; [lia | constructor | naive_solver].
    + destruct (search_slot ks k) as [i'|]; [|done]. intros [= <-].
      destruct (IH i' eq_refl) as (? & ? & ?).
      split_and!; [simpl; lia | simpl; constructor; [lia | done] | done].
Qed.

End slot_facts.

Section interleave_facts.

Implicit Types (ls : list (list N)) (ks : list N).

Lemma interleave_app ls1 ks1 ls2 ks2 :
  length ls1 = length ks1 →
  interleave (ls1 ++ ls2) (ks1 ++ ks2)
  = interleave ls1 ks1 ++ interleave ls2 ks2.
Proof.
  revert ks1. induction ls1 as [|l ls1 IH]; intros [|k ks1] ?;
    simplify_eq/=; [done|].
  by rewrite IH, <-app_assoc.
Qed.

Lemma interleave_cons ls l ks :
  interleave (l :: ls) ks = l ++ interleave ([] :: ls) ks.
Proof. by destruct ks. Qed.

Lemma interleave_cons2 ls l k ks :
  interleave (l :: ls) (k :: ks) = l ++ k :: interleave ls ks.
Proof. done. Qed.

Lemma interleave_at ls ks j l :
  ls !! j = Some l → j ≤ length ks →
  interleave ls ks = before ls ks j ++ l ++ after ls ks j.
Proof.
  intros Hl Hj. unfold before, after.
  rewrite <-(take_drop_middle ls j l Hl) at 1.
  rewrite <-(take_drop j ks) at 1.
  rewrite interleave_app.
  - by rewrite interleave_cons.
  - apply lookup_lt_Some in Hl. rewrite !length_take. lia.
Qed.

Lemma before_0 ls ks : before ls ks 0 = [].
Proof. unfold before. by rewrite !take_0. Qed.

Lemma before_S ls ks j x l :
  ks !! j = Some x → ls !! j = Some l →
  before ls ks (S j) = before ls ks j ++ l ++ [x].
Proof.
  intros Hx Hl. unfold before.
  rewrite (take_S_r _ _ _ Hx), (take_S_r _ _ _ Hl).
  rewrite interleave_app.
  - simpl. done.
  - apply lookup_lt_Some in Hl, Hx. rewrite !length_take. lia.
Qed.

Lemma after_key ls ks j x :
  ks !! j = Some x →
  after ls ks j = x :: interleave (drop (S j) ls) (drop (S j) ks).
Proof.
  intros Hx. unfold after. by rewrite (drop_S _ _ _ Hx).
Qed.

Lemma after_end ls ks j :
  length ls = S (length ks) → j = length ks → after ls ks j = [].
Proof.
  intros Hls ->. unfold after.
  rewrite !drop_ge by lia. done.
Qed.

Lemma before_insert ls ks j l : before (<[j:=l]> ls) ks j = before ls ks j.
Proof. unfold before. by rewrite take_insert_ge by lia. Qed.
Lemma after_insert ls ks j l : after (<[j:=l]> ls) ks j = after ls ks j.
Proof. unfold after. by rewrite drop_insert_lt by lia. Qed.

End interleave_facts.

Section tree_facts.

Implicit Types (t c : bt) (ks : list N) (cs : list bt) (k : N).

Lemma height_le lf ks cs d :
  height (Bt lf ks cs) ≤ S d ↔ Forall (λ c, height c ≤ d) cs.
Proof.
  simpl. induction cs as [|c cs IH]; simpl.
  - split; [constructor | lia].
  - rewrite Forall_cons. rewrite <-IH. lia.
Qed.

Lemma height_pos t : 1 ≤ height t.
Proof. destruct t; simpl; lia. Qed.

Lemma alter_as_insert {A} (f : A → A) (l : list A) i x :
  l !! i = Some x → alter f i l = <[i := f x]> l.
Proof.
  revert i. induction l as [|y l IH]; intros [|i] ?; simplify_eq/=; [done|].
  f_equal. by apply IH.
Qed.

Lemma sorted_insert (l1 l2 : list N) k :
  sorted (l1 ++ l2) → Forall (λ x, (x ≤ k)%N) l1 → Forall (λ x, (k ≤ x)%N) l2 →
  sorted (l1 ++ k :: l2).
Proof.
  rewrite !StronglySorted_app, StronglySorted_cons, !Forall_forall.
  intros (H12 & H1 & H2) Hl1 Hl2. split_and!; try done.
  intros x1 x2 ? [->|?]%elem_of_cons; [by apply Hl1 | by apply H12].
Qed.

Lemma inorder_at lf ks cs j c :
  cs !! j = Some c → j ≤ length ks →
  inorder (Bt lf ks cs)
  = before (inorder <$> cs) ks j ++ inorder c ++ after (inorder <$> cs) ks j.
Proof.
  intros Hc Hj. simpl. apply interleave_at; [|done].
  by rewrite list_lookup_fmap, Hc.
Qed.

(** Bounds on the keys listed before and after a slot, from the key
    next to the slot. *)
Lemma before_bound (P : N → Prop) (ls : list (list N)) ks j rest :
  (∀ x y, (y ≤ x)%N → P x → P y) →
  sorted (before ls ks j ++ rest) →
  (∀ j' x, j = S j' → ks !! j' = Some x → P x) →
  j ≤ length ks → j ≤ length ls →
  Forall P (before ls ks j).
Proof.
  intros HP Hs Hk Hj Hjl. destruct j as [|j].
  - rewrite before_0. constructor.
  - destruct (lookup_lt_is_Some_2 ks j) as [x Hx]; [lia|].
    destruct (lookup_lt_is_Some_2 ls j) as [l Hl]; [lia|].
    rewrite (before_S _ _ _ _ _ Hx Hl) in Hs |- *.
    pose proof (Hk j x eq_refl Hx).
    apply StronglySorted_app_1_l in Hs.
    rewrite app_assoc in Hs |- *.
    rewrite StronglySorted_app in Hs. destruct Hs as (H1 & _ & _).
    rewrite Forall_app. split.
    + apply Forall_forall. intros y Hy.
      apply (HP x); [apply (H1 y x Hy); set_solver | done].
    + by repeat constructor.
Qed.

Lemma after_bound (P : N → Prop) (ls : list (list N)) ks j pre :
  (∀ x y, (x ≤ y)%N → P x → P y) →
  sorted (pre ++ after ls ks j) →
  (∀ x, ks !! j = Some x → P x) →
  length ls = S (length ks) → j ≤ length ks →
  Forall P (after ls ks j).
Proof.
  intros HP Hs Hk Hl Hj. apply StronglySorted_app_1_r in Hs.
  destruct (ks !! j) as [x|] eqn:Hx.
  - rewrite (after_key _ _ _ _ Hx) in Hs |- *.
    apply StronglySorted_cons in Hs as [Hs _].
    specialize (Hk x eq_refl). constructor; [done|].
    eapply Forall_impl; [exact Hs|]. intros y ?; simpl in *. by apply (HP x).
  - apply lookup_ge_None in Hx. rewrite after_end by lia. constructor.
Qed.

(** The listing of a node in which the child at slot [j] received [k]. *)
Lemma descend_inorder ks cs j c c' k l1 l2 :
  length cs = S (length ks) → cs !! j = Some c →
  inorder c = l1 ++ l2 → inorder c' = l1 ++ k :: l2 →
  (sorted (inorder c) →
   Forall (λ x, (x ≤ k)%N) l1 ∧ Forall (λ x, (k ≤ x)%N) l2) →
  (∀ j' x, j = S j' → ks !! j' = Some x → (x ≤ k)%N) →
  (∀ x, ks !! j = Some x → (k ≤ x)%N) →
  ∃ L1 L2,
    inorder (Bt false ks cs) = L1 ++ L2 ∧
    inorder (Bt false ks (<[j := c']> cs)) = L1 ++ k :: L2 ∧
    (sorted (inorder (Bt false ks cs)) →
     Forall (λ x, (x ≤ k)%N) L1 ∧ Forall (λ x, (k ≤ x)%N) L2).
Proof.
  intros Hlen Hc E1 E2 Hb Hlo Hhi.
  assert (j ≤ length ks) as Hj by (apply lookup_lt_Some in Hc; lia).
  exists (before (inorder <$> cs) ks j ++ l1), (l2 ++ after (inorder <$> cs) ks j).
  split_and!.
  - rewrite (inorder_at _ _ _ _ _ Hc Hj), E1. by rewrite <-!app_assoc.
  - rewrite (inorder_at _ _ (<[j:=c']> cs) j c'); [|by eapply list_lookup_insert_eq, lookup_lt_Some | done].
    rewrite list_fmap_insert, before_insert, after_insert, E2.
    by rewrite <-!app_assoc.
  - rewrite (inorder_at _ _ _ _ _ Hc Hj). intros Hs.
    destruct Hb as [Hb1 Hb2].
    { by apply StronglySorted_app_1_r, StronglySorted_app_1_l in Hs. }
    rewrite !Forall_app. split_and!; try done.
    + eapply before_bound; [intros; lia | exact Hs | done | done |].
      rewrite length_fmap. lia.
    + eapply after_bound; [intros; lia | |done| |done].
      * rewrite app_assoc in Hs. exact Hs.
      * by rewrite length_fmap.
Qed.

End tree_facts.

Section insert_facts.

Implicit Types (t c : bt) (ks : list N) (cs : list bt) (k : N).

Lemma insert_at_length {A} i (x : A) l : length (insert_at i x l) = S (length l).
Proof.
  unfold insert_at. rewrite length_app. simpl.
  rewrite length_take, length_drop. lia.
Qed.

Lemma insert_at_lookup_lt {A} i j (x : A) l :
  j < i → i ≤ length l → insert_at i x l !! j = l !! j.
Proof.
  intros. unfold insert_at.
  rewrite lookup_app_l by (rewrite length_take; lia).
  by rewrite lookup_take_lt.
Qed.

Lemma insert_at_lookup_eq {A} i (x : A) l :
  i ≤ length l → insert_at i x l !! i = Some x.
Proof.
  intros. unfold insert_at.
  rewrite lookup_app_r by (rewrite length_take; lia).
  rewrite length_take. by replace (i - i `min` length l) with 0 by lia.
Qed.

Lemma insert_at_lookup_S {A} i (x : A) l :
  i ≤ length l → insert_at i x l !! S i = l !! i.
Proof.
  intros. unfold insert_at.
  rewrite lookup_app_r by (rewrite length_take; lia).
  rewrite length_take. replace (S i - i `min` length l) with 1 by lia.
  simpl. rewrite lookup_drop. f_equal. lia.
Qed.

(** A full well-formed node, spelled out. *)
Lemma full_shape_inv c :
  shape c → full c →
  ∃ lf a m b ccs, c = Bt lf [a; m; b] ccs ∧
    shape (Bt lf [a] (take 2 ccs)) ∧ shape (Bt lf [b] (drop 2 ccs)) ∧
    inorder c = inorder (Bt lf [a] (take 2 ccs)) ++ m
                :: inorder (Bt lf [b] (drop 2 ccs)).
Proof.
  unfold full. rewrite MAX_val. intros Hs Hf. inv Hs; simpl in Hf.
  - destruct ks as [|a [|m [|b [|]]]]; simplify_eq/=.
    exists true, a, m, b, []. split_and!; [done| | |done];
      constructor; rewrite MAX_val; simpl; lia.
  - destruct ks as [|a [|m [|b [|]]]]; simplify_eq/=.
    destruct cs as [|c0 [|c1 [|c2 [|c3 [|]]]]]; simplify_eq/=.
    exists false, a, m, b, [c0; c1; c2; c3].
    repeat match goal with H : Forall _ (_ :: _) |- _ =>
      apply Forall_cons in H as [? H] end.
    split_and!; [done| | |];
      [constructor; rewrite ?MAX_val; simpl; auto with lia..|].
    simpl. by rewrite !app_nil_r, <-!app_assoc.
Qed.

Lemma split_child_eq plf ks cs i lf a m b ccs :
  cs !! i = Some (Bt lf [a; m; b] ccs) →
  split_child (Bt plf ks cs) i
  = Bt plf (insert_at i m ks)
       (take i cs ++ Bt lf [a] (take 2 ccs) :: Bt lf [b] (drop 2 ccs)
                  :: drop (S i) cs).
Proof. intros Hc. unfold split_child. simpl. by rewrite Hc. Qed.

Lemma height_child d lf ks cs :
  height (Bt lf ks cs) ≤ d → ∃ d', d = S d' ∧ Forall (λ c, height c ≤ d') cs.
Proof.
  intros H. destruct d as [|d]; [pose proof (height_pos (Bt lf ks cs)); lia|].
  exists d. split; [done | by apply height_le in H].
Qed.

(** Splitting the full child at slot [i] of a well-formed node with room. *)
Lemma split_child_facts d ks cs i c :
  shape (Bt false ks cs) → length ks < MAX → height (Bt false ks cs) ≤ S d →
  cs !! i = Some c → full c →
  ∃ m l r cs',
    split_child (Bt false ks cs) i = Bt false (insert_at i m ks) cs' ∧
    cs' = take i cs ++ l :: r :: drop (S i) cs ∧
    shape (Bt false (insert_at i m ks) cs') ∧
    height (Bt false (insert_at i m ks) cs') ≤ S d ∧
    length (nkeys l) = 1 ∧ length (nkeys r) = 1 ∧
    inorder (Bt false (insert_at i m ks) cs') = inorder (Bt false ks cs) ∧
    (min_keys c → min_keys l ∧ min_keys r).
Proof.
  intros Hs Hnf Hh Hc Hf. inv Hs.
  assert (i ≤ length ks) as Hi by (apply lookup_lt_Some in Hc; lia).
  assert (shape c) as Hsc by (by eapply Forall_lookup_1 in Hc).
  destruct (full_shape_inv c Hsc Hf) as (lf & a & m & b & ccs & -> & Hl & Hr & Hio).
  eexists m, _, _, _. split; [by apply split_child_eq|]. split; [done|].
  apply height_le in Hh.
  eapply Forall_lookup_1 in Hh as Hhc; [|exact Hc].
  apply height_child in Hhc as (d' & -> & Hhc).
  split_and!.
  - constructor.
    + rewrite insert_at_length. rewrite MAX_val in *. lia.
    + rewrite length_app, insert_at_length. simpl.
      rewrite length_take, length_drop. apply lookup_lt_Some in Hc. lia.
    + rewrite Forall_app, !Forall_cons. split_and!; try done.
      * by apply Forall_take.
      * by apply Forall_drop.
  - apply height_le. rewrite Forall_app, !Forall_cons. split_and!.
    + by apply Forall_take.
    + by apply height_le, Forall_take.
    + by apply height_le, Forall_drop.
    + by apply Forall_drop.
  - done.
  - done.
  - cbn [inorder]. rewrite !fmap_app, !fmap_cons. unfold insert_at.
    rewrite interleave_app by (rewrite length_fmap, !length_take; lia).
    rewrite (interleave_cons2 _ _ m), interleave_cons.
    change (interleave (inorder <$> cs) ks) with (inorder (Bt false ks cs)).
    rewrite (inorder_at _ _ _ _ _ Hc Hi), Hio. unfold before, after.
    rewrite <-!fmap_take, <-!fmap_drop. by rewrite <-!app_assoc.
  - intros Hm. inv Hm. simpl in *. split; constructor; simpl.
    + by apply Forall_take.
    + by apply Forall_drop.
Qed.

Lemma split_child_height d ks cs i c :
  shape (Bt false ks cs) → length ks < MAX → cs !! i = Some c → full c →
  height (Bt false ks cs) ≤ S d →
  height (split_child (Bt false ks cs) i) ≤ S d.
Proof.
  intros Hs Hnf Hc Hf Hh.
  destruct (split_child_facts d ks cs i c)
    as (m & l & r & cs' & -> & _ & _ & ? & _); done.
Qed.

(** Replacing the child at slot [j] of a well-formed node by a
    well-formed one of no greater height. *)
Lemma descend_shape d ks cs j c c' :
  shape (Bt false ks cs) → height (Bt false ks cs) ≤ S d →
  cs !! j = Some c → shape c' → height c' ≤ d →
  length (nkeys c) ≤ length (nkeys c') →
  (min_keys c → min_keys c') →
  let t' := Bt false ks (<[j := c']> cs) in
  shape t' ∧ height t' ≤ S d ∧
  (min_keys (Bt false ks cs) → min_keys t').
Proof.
  intros Hs Hh Hc Hs' Hh' Hlen Hm. inv Hs. split_and!.
  - constructor; [done | by rewrite length_insert | by apply Forall_insert].
  - apply height_le in Hh. apply height_le. by apply Forall_insert.
  - intros Hmk. inv Hmk. constructor. simpl in *.
    apply Forall_insert; [done|].
    eapply Forall_lookup_1 in Hc; [|done]. simpl in Hc. split; [lia | naive_solver].
Qed.

Lemma insert_nonfull_shape d t k :
  shape t → ¬ full t → height t ≤ d →
  let t' := insert_nonfull d t k in
  shape t' ∧ height t' ≤ d ∧ leaf t' = leaf t ∧
  length (nkeys t) ≤ length (nkeys t') ∧
  (min_keys t → min_keys t').
Proof.
  revert t. induction d as [|d IH]; intros t Hs Hnf Hh.
  { pose proof (height_pos t). lia. }
  cbn zeta. destruct t as [lf ks cs]. unfold full in Hnf. simpl in Hnf.
  inversion Hs as [? Hlk | ? ? Hlk Hlc Hsc]; subst.
  - (* leaf *)
    simpl. split_and!; [|lia|done| |].
    + constructor. rewrite insert_at_length. rewrite MAX_val in *. lia.
    + rewrite insert_at_length. lia.
    + intros _. constructor. simpl. constructor.
  - (* internal node *)
    cbn [insert_nonfull leaf nkeys kids].
    pose proof (slot_le ks k) as Hi. set (i := slot ks k) in *.
    destruct (lookup_lt_is_Some_2 cs i) as [c Hc]; [lia|]. rewrite Hc.
    assert (Forall (λ c, height c ≤ d) cs) as Hhc by (by apply height_le in Hh).
    destruct (decide (full c)) as [Hf|Hf].
    + destruct (split_child_facts d ks cs i c) as
        (m & l & r & cs' & -> & Ecs & Hs1 & Hh1 & Hl & Hr & _ & Hmk);
        [done | rewrite MAX_val in *; lia | done | done | done |].
      cbn [nkeys kids].
      rewrite insert_at_lookup_eq by done.
      change (default 0%N (Some m)) with m.
      assert (cs' !! i = Some l ∧ cs' !! S i = Some r) as [Hli Hri].
      { subst cs'. split.
        - rewrite lookup_app_r by (rewrite length_take; lia).
          rewrite length_take. by replace (i - i `min` length cs) with 0 by lia.
        - rewrite lookup_app_r by (rewrite length_take; lia).
          rewrite length_take. by replace (S i - i `min` length cs) with 1 by lia. }
      assert (Forall (λ c, height c ≤ d) cs') as Hhc' by (by apply height_le in Hh1).
      assert (Forall shape cs') as Hsc' by (by inv Hs1).
      assert (min_keys (Bt false ks cs) → min_keys (Bt false (insert_at i m ks) cs')) as Hmk1.
      { intros Hm0. rewrite Ecs. inv Hm0. simpl in *. constructor. simpl.
        rewrite Forall_app, !Forall_cons.
        eapply Forall_lookup_1 in Hc as Hcm; [|done]. simpl in Hcm.
        destruct Hmk as [? ?]; [naive_solver|].
        split_and!; try done; [by apply Forall_take | rewrite Hl; done
                               | rewrite Hr; done | by apply Forall_drop]. }
      case_decide as Hcmp.
      * eapply Forall_lookup_1 in Hhc' as ?; [|exact Hri].
        eapply Forall_lookup_1 in Hsc' as ?; [|exact Hri].
        destruct (IH r) as (? & ? & ? & ? & ?); [done| unfold full; rewrite MAX_val; lia |done|].
        rewrite (alter_as_insert _ _ _ _ Hri).
        edestruct (descend_shape d (insert_at i m ks) cs' (S i) r) as (? & ? & ?); try done.
        split_and!; try done; [simpl; rewrite insert_at_length; lia | naive_solver].
      * eapply Forall_lookup_1 in Hhc' as ?; [|exact Hli].
        eapply Forall_lookup_1 in Hsc' as ?; [|exact Hli].
        destruct (IH l) as (? & ? & ? & ? & ?); [done| unfold full; rewrite MAX_val; lia |done|].
        rewrite (alter_as_insert _ _ _ _ Hli).
        edestruct (descend_shape d (insert_at i m ks) cs' i l) as (? & ? & ?); try done.
        split_and!; try done; [simpl; rewrite insert_at_length; lia | naive_solver].
    + eapply Forall_lookup_1 in Hhc as ?; [|exact Hc].
      eapply Forall_lookup_1 in Hsc as ?; [|exact Hc].
      destruct (IH c) as (? & ? & ? & ? & ?); [done..|].
      rewrite (alter_as_insert _ _ _ _ Hc).
      by edestruct (descend_shape d ks cs i c) as (? & ? & ?).
Qed.

End insert_facts.

Section insert_order.

Implicit Types (t c : bt) (ks : list N) (cs : list bt) (k : N).

Lemma inserted_sorted t t' k :
  inserted t t' k → sorted (inorder t) → sorted (inorder t').
Proof.
  intros (l1 & l2 & E1 & E2 & Hb) Hs. destruct (Hb Hs). rewrite E2.
  apply sorted_insert; [by rewrite <-E1 | done..].
Qed.

Lemma inserted_perm t t' k :
  inserted t t' k → inorder t' ≡ₚ k :: inorder t.
Proof.
  intros (l1 & l2 & -> & -> & _). by rewrite Permutation_middle.
Qed.

Lemma insert_nonfull_inorder d t k :
  shape t → ¬ full t → height t ≤ d →
  inserted t (insert_nonfull d t k) k.
Proof.
  revert t. induction d as [|d IH]; intros t Hs Hnf Hh.
  { pose proof (height_pos t). lia. }
  destruct t as [lf ks cs]. unfold full in Hnf. simpl in Hnf.
  inversion Hs as [? Hlk | ? ? Hlk Hlc Hsc]; subst.
  - (* leaf *)
    exists (take (slot ks k) ks), (drop (slot ks k) ks). simpl.
    split_and!; [by rewrite take_drop | done |].
    intros Hsorted. split.
    + destruct (slot ks k) as [|j] eqn:E; [by rewrite take_0|].
      destruct (slot_prev _ _ _ E) as (x & Hx & ?).
      rewrite (take_S_r _ _ _ Hx), Forall_app. split; [|by repeat constructor].
      rewrite <-(take_drop_middle _ _ _ Hx) in Hsorted.
      rewrite StronglySorted_app in Hsorted. destruct Hsorted as (H1 & _).
      apply Forall_forall. intros y Hy.
      etrans; [apply (H1 y x Hy); set_solver | done].
    + eapply Forall_impl; [apply slot_drop|]. intros; simpl in *. lia.
  - (* internal node *)
    cbn [insert_nonfull leaf nkeys kids].
    pose proof (slot_le ks k) as Hi. pose proof (slot_drop ks k) as Hdrop.
    pose proof (slot_prev ks k) as Hprev. set (i := slot ks k) in *.
    destruct (lookup_lt_is_Some_2 cs i) as [c Hc]; [lia|]. rewrite Hc.
    assert (Forall (λ c, height c ≤ d) cs) as Hhc by (by apply height_le in Hh).
    assert (∀ x, ks !! i = Some x → (k < x)%N) as Hhi.
    { intros x Hx. rewrite (drop_S _ _ _ Hx) in Hdrop. by inv Hdrop. }
    destruct (decide (full c)) as [Hf|Hf].
    + destruct (split_child_facts d ks cs i c) as
        (m & l & r & cs' & -> & Ecs & Hs1 & Hh1 & Hl & Hr & Hio & _);
        [done | rewrite MAX_val in *; lia | done | done | done |].
      cbn [nkeys kids].
      rewrite insert_at_lookup_eq by done.
      change (default 0%N (Some m)) with m.
      assert (cs' !! i = Some l ∧ cs' !! S i = Some r) as [Hli Hri].
      { rewrite Ecs. split.
        - rewrite lookup_app_r by (rewrite length_take; lia).
          rewrite length_take. by replace (i - i `min` length cs) with 0 by lia.
        - rewrite lookup_app_r by (rewrite length_take; lia).
          rewrite length_take. by replace (S i - i `min` length cs) with 1 by lia. }
      assert (Forall (λ c, height c ≤ d) cs') as Hhc' by (by apply height_le in Hh1).
      assert (Forall shape cs') as Hsc' by (by inv Hs1).
      assert (length cs' = S (length (insert_at i m ks))) as Hlen' by (by inv Hs1).
      unfold inserted. rewrite <-Hio.
      case_decide as Hcmp.
      * eapply Forall_lookup_1 in Hhc' as ?; [|exact Hri].
        eapply Forall_lookup_1 in Hsc' as ?; [|exact Hri].
        destruct (IH r) as (l1 & l2 & E1 & E2 & Hb);
          [done| unfold full; rewrite MAX_val; lia |done|].
        rewrite (alter_as_insert _ _ _ _ Hri).
        eapply descend_inorder; try done.
        -- intros j' x [= <-]. rewrite insert_at_lookup_eq by done.
           intros [= <-]. lia.
        -- intros x. rewrite insert_at_lookup_S by done.
           intros Hx%Hhi. lia.
      * eapply Forall_lookup_1 in Hhc' as ?; [|exact Hli].
        eapply Forall_lookup_1 in Hsc' as ?; [|exact Hli].
        destruct (IH l) as (l1 & l2 & E1 & E2 & Hb);
          [done| unfold full; rewrite MAX_val; lia |done|].
        rewrite (alter_as_insert _ _ _ _ Hli).
        eapply descend_inorder; try done.
        -- intros j' x ->. rewrite insert_at_lookup_lt by lia.
           intros Hx. destruct (Hprev j' eq_refl) as (y & ? & ?).
           by simplify_eq.
        -- intros x. rewrite insert_at_lookup_eq by done.
           intros [= <-]. lia.
    + eapply Forall_lookup_1 in Hhc as ?; [|exact Hc].
      eapply Forall_lookup_1 in Hsc as ?; [|exact Hc].
      destruct (IH c) as (l1 & l2 & E1 & E2 & Hb); [done..|].
      rewrite (alter_as_insert _ _ _ _ Hc).
      eapply descend_inorder; try done.
      * intros j' x ->. intros Hx. destruct (Hprev j' eq_refl) as (y & ? & ?).
        by simplify_eq.
      * intros x Hx%Hhi. lia.
Qed.

(** [insert] from the root. *)
Lemma insert_facts d t k :
  shape t → height t ≤ d →
  let t' := insert (S d) t k in
  shape t' ∧ height t' ≤ S d ∧ inserted t t' k ∧
  (min_keys t → min_keys t').
Proof.
  intros Hs Hh. cbn zeta. unfold insert.
  destruct (decide (full t)) as [Hf|Hf].
  - set (t0 := Bt false [] [t]).
    assert (shape t0) as Hs0 by (constructor; [rewrite MAX_val; simpl; lia | done | by repeat constructor]).
    assert (height t0 ≤ S d) as Hh0 by (apply height_le; by repeat constructor).
    destruct (split_child_facts d [] [t] 0 t) as
      (m & l & r & cs' & E & Ecs & Hs1 & Hh1 & Hl & Hr & Hio & Hmk);
      [done | rewrite MAX_val; simpl; lia | done | done | done |].
    fold t0 in E. rewrite E.
    assert (¬ full (Bt false (insert_at 0 m []) cs')) as Hnf
      by (unfold full; rewrite MAX_val; simpl; lia).
    destruct (insert_nonfull_shape (S d) _ k Hs1 Hnf Hh1) as (? & ? & _ & _ & Hm').
    pose proof (insert_nonfull_inorder (S d) _ k Hs1 Hnf Hh1) as Hins.
    split_and!; [done | done | |].
    + unfold inserted in *. rewrite Hio in Hins. simpl in Hins.
      rewrite app_nil_r in Hins. done.
    + intros Hm. apply Hm'. constructor. simpl. rewrite Ecs. simpl.
      destruct Hmk as [? ?]; [done|].
      rewrite !Forall_cons.
      split_and!; [by rewrite Hl | done | by rewrite Hr | done | constructor].
  - destruct (insert_nonfull_shape (S d) t k) as (? & ? & _ & _ & ?); [done|done|lia|].
    split_and!; [done..| |done].
    apply insert_nonfull_inorder; [done|done|lia].
Qed.

End insert_order.

Section order.

Implicit Types (t c : bt) (ks : list N) (cs : list bt) (k : N).

Lemma sorted_child lf ks cs j c :
  shape (Bt lf ks cs) → cs !! j = Some c →
  sorted (inorder (Bt lf ks cs)) → sorted (inorder c).
Proof.
  intros Hs Hc Hso. inv Hs; try done.
  apply lookup_lt_Some in Hc as Hj.
  rewrite (inorder_at _ _ _ j c) in Hso by (done || lia).
  by apply StronglySorted_app_1_r, StronglySorted_app_1_l in Hso.
Qed.

Lemma NoDup_child lf ks cs j c :
  shape (Bt lf ks cs) → cs !! j = Some c →
  NoDup (inorder (Bt lf ks cs)) → NoDup (inorder c).
Proof.
  intros Hs Hc Hso. inv Hs; try done.
  apply lookup_lt_Some in Hc as Hj.
  rewrite (inorder_at _ _ _ j c) in Hso by (done || lia).
  by apply NoDup_app in Hso as (_ & _ & (? & _ & _)%NoDup_app).
Qed.

(** In a sorted listing every key of [children[i]] is at most
    [keys[i]] and every key of [children[i+1]] at least [keys[i]];
    without repeated keys the first is strict. *)
Lemma sorted_order_at (strict : bool) t :
  shape t → sorted (inorder t) → (strict → NoDup (inorder t)) →
  order_at (λ x k, if strict then x < k else x ≤ k)%N t.
Proof.
  intros Hs Hso Hnd i k Hk. destruct t as [lf ks cs]. cbn [nkeys kids] in *.
  inv Hs; [split; intros ??; by rewrite lookup_nil|].
  assert (i < length ks) as Hi by (by eapply lookup_lt_Some).
  split; intros c x Hc Hx.
  - rewrite (inorder_at _ _ _ i c) in Hso, Hnd by (done || lia).
    rewrite (after_key _ _ _ _ Hk) in Hso, Hnd.
    assert (x ≤ k)%N as Hle.
    { apply StronglySorted_app_1_r in Hso.
      eapply StronglySorted_app_1_elem_of; [exact Hso | done | set_solver]. }
    destruct strict; [|done].
    specialize (Hnd I). apply NoDup_app in Hnd as (_ & _ & Hnd).
    apply NoDup_app in Hnd as (_ & Hnd & _).
    assert (x ≠ k) by (intros ->; apply (Hnd k); set_solver). lia.
  - rewrite (inorder_at _ _ _ (S i) c) in Hso by (done || lia).
    destruct (lookup_lt_is_Some_2 cs i) as [ci Hci]; [lia|].
    rewrite (before_S _ _ _ k (inorder ci)) in Hso;
      [|done|by rewrite list_lookup_fmap, Hci].
    rewrite <-!app_assoc in Hso.
    apply StronglySorted_app_1_r, StronglySorted_app_1_r in Hso.
    eapply (StronglySorted_app_1_elem_of _ [k]); [exact Hso | set_solver | set_solver].
Qed.

Lemma sorted_order_inv (strict : bool) t :
  shape t → sorted (inorder t) → (strict → NoDup (inorder t)) →
  order_inv (λ x k, if strict then x < k else x ≤ k)%N t.
Proof.
  induction t as [lf ks cs IH] using bt_ind'. intros Hs Hso Hnd.
  constructor; [by apply sorted_order_at|]. simpl.
  apply Forall_lookup. intros j c Hc.
  eapply Forall_lookup_1 in IH; [|exact Hc]. apply IH.
  - inv Hs; try done. by eapply Forall_lookup_1.
  - by eapply sorted_child.
  - intros. by eapply NoDup_child; eauto.
Qed.

End order.

Section search_facts.

Implicit Types (t c : bt) (ks : list N) (cs : list bt) (k : N).

Lemma search_sound d t k : search d t k = true → k ∈ inorder t.
Proof.
  revert t. induction d as [|d IH]; intros [lf ks cs]; simpl; [done|].
  destruct (search_slot ks k) as [i|] eqn:E.
  - destruct lf; [done|]. destruct (cs !! i) as [c|] eqn:Hc; [|done].
    intros Hin%IH. clear IH E. revert i Hc.
    revert ks. induction cs as [|c0 cs IHcs]; intros ks [|i] Hc; simplify_eq/=.
    + destruct ks; set_solver.
    + specialize (IHcs (tail ks) i Hc). destruct ks as [|? ks]; simpl in *.
      * apply elem_of_app. right. clear -Hc Hin.
        revert i Hc. induction cs as [|c1 cs IH2]; intros [|i] ?; simplify_eq/=; set_solver.
      * set_solver.
  - intros _. apply search_slot_found in E. clear -E.
    revert cs. induction ks as [|x ks IHks]; [by apply elem_of_nil in E|].
    intros [|c cs]; simpl; [done|].
    apply elem_of_cons in E as [->|E]; [set_solver|].
    specialize (IHks E cs). destruct cs; set_solver.
Qed.

Lemma search_complete d t k :
  shape t → sorted (inorder t) → height t ≤ d →
  k ∈ inorder t → search d t k = true.
Proof.
  revert t. induction d as [|d IH]; intros t Hs Hso Hh Hin.
  { pose proof (height_pos t). lia. }
  destruct t as [lf ks cs]. cbn [search nkeys leaf kids].
  destruct (search_slot ks k) as [i|] eqn:E; [|done].
  apply search_slot_stop in E as (Hi & Hlt & Hgt).
  inversion Hs as [? Hlk | ? ? Hlk Hlc Hsc]; subst.
  - (* leaf: the key is in neither part *)
    exfalso. simpl in *. rewrite <-(take_drop i ks) in Hin, Hso.
    apply elem_of_app in Hin as [Hin|Hin].
    + rewrite Forall_forall in Hlt. specialize (Hlt _ Hin). simpl in Hlt. lia.
    + destruct (ks !! i) as [x|] eqn:Hx.
      * rewrite (drop_S _ _ _ Hx) in Hin, Hso. specialize (Hgt x eq_refl).
        apply StronglySorted_app_1_r, StronglySorted_cons in Hso as [Hso _].
        rewrite Forall_forall in Hso.
        apply elem_of_cons in Hin as [->|Hin]; [lia|].
        specialize (Hso _ Hin). simpl in Hso. lia.
      * apply lookup_ge_None in Hx. rewrite drop_ge in Hin by done. set_solver.
  - destruct (lookup_lt_is_Some_2 cs i) as [c Hc]; [lia|]. rewrite Hc.
    apply IH.
    + by eapply Forall_lookup_1.
    + by eapply sorted_child.
    + apply height_le in Hh. by eapply Forall_lookup_1 in Hh.
    + rewrite (inorder_at _ _ _ i c) in Hin, Hso by done.
      apply elem_of_app in Hin as [Hin|[Hin|Hin]%elem_of_app]; [|done|]; exfalso.
      * assert (Forall (λ x, (x < k)%N) (before (inorder <$> cs) ks i)) as Hb.
        { eapply before_bound;
            [intros; lia | exact Hso | | done | rewrite length_fmap; lia].
          intros j' x -> Hx. rewrite Forall_forall in Hlt. apply Hlt.
          apply list_elem_of_lookup. exists j'. by rewrite lookup_take_lt by lia. }
        rewrite Forall_forall in Hb. specialize (Hb _ Hin). simpl in Hb. lia.
      * assert (Forall (λ x, (k < x)%N) (after (inorder <$> cs) ks i)) as Ha.
        { eapply after_bound;
            [intros; lia | rewrite app_assoc in Hso; exact Hso | done
            | by rewrite length_fmap | done]. }
        rewrite Forall_forall in Ha. specialize (Ha _ Hin). simpl in Ha. lia.
Qed.

End search_facts.

(** * Balance of the tree *)

Section balance.

Implicit Types (t c : bt) (ks : list N) (cs : list bt) (k : N).

Lemma levels_split D plf ks cs i c :
  shape c → full c → cs !! i = Some c → Forall (levels D) cs →
  ∃ m cs',
    split_child (Bt plf ks cs) i = Bt plf (insert_at i m ks) cs' ∧
    Forall (levels D) cs'.
Proof.
  intros Hs Hf Hc Hl.
  destruct (full_shape_inv c Hs Hf) as (lf & a & m & b & ccs & -> & _).
  exists m. eexists. split; [by apply split_child_eq|].
  eapply Forall_lookup_1 in Hl as HD; [|done].
  rewrite Forall_app, !Forall_cons.
  split_and!; [by apply Forall_take| | |by apply Forall_drop];
    destruct D as [|D]; try done; simpl in *; destruct lf; try done.
  - by apply Forall_take.
  - by apply Forall_drop.
Qed.

Lemma levels_insert_nonfull d t k D :
  shape t → ¬ full t → height t ≤ d → levels D t →
  levels D (insert_nonfull d t k).
Proof.
  revert t D. induction d as [|d IH]; intros t D Hs Hnf Hh HD; [done|].
  destruct t as [lf ks cs]. unfold full in Hnf. simpl in Hnf.
  destruct D as [|D]; [done|].
  inversion Hs as [? Hlk | ? ? Hlk Hlc Hsc]; subst; [done|].
  cbn [insert_nonfull leaf nkeys kids]. cbn [levels leaf kids] in HD.
  pose proof (slot_le ks k) as Hi. set (i := slot ks k) in *.
  destruct (lookup_lt_is_Some_2 cs i) as [c Hc]; [lia|]. rewrite Hc.
  assert (Forall (λ c, height c ≤ d) cs) as Hhc by (by apply height_le in Hh).
  destruct (decide (full c)) as [Hf|Hf].
  - destruct (split_child_facts d ks cs i c) as
      (m & l & r & cs' & E & Ecs & Hs1 & Hh1 & Hl & Hr & _ & _);
      [done | rewrite MAX_val in *; lia | done | done | done |].
    destruct (levels_split D false ks cs i c) as (m' & cs'' & E' & HD');
      [by eapply Forall_lookup_1 in Hsc | done | done | done |].
    rewrite E in E'. injection E' as _ <-. rewrite E.
    cbn [nkeys kids levels leaf].
    assert (cs' !! i = Some l ∧ cs' !! S i = Some r) as [Hli Hri].
    { subst cs'. split.
      - rewrite lookup_app_r by (rewrite length_take; lia).
        rewrite length_take. by replace (i - i `min` length cs) with 0 by lia.
      - rewrite lookup_app_r by (rewrite length_take; lia).
        rewrite length_take. by replace (S i - i `min` length cs) with 1 by lia. }
    assert (Forall (λ c, height c ≤ d) cs') as Hhc' by (by apply height_le in Hh1).
    assert (Forall shape cs') as Hsc' by (by inv Hs1).
    apply Forall_alter; [done|]. intros x Hx.
    apply IH.
    + by eapply Forall_lookup_1 in Hsc'.
    + unfold full. rewrite MAX_val. case_decide; simplify_eq; lia.
    + by eapply Forall_lookup_1 in Hhc'.
  - cbn [levels leaf kids]. apply Forall_alter; [done|]. intros x Hx.
    simplify_eq. apply IH.
    + by eapply Forall_lookup_1 in Hsc.
    + done.
    + by eapply Forall_lookup_1 in Hhc.
Qed.

Lemma levels_insert d t k D :
  shape t → height t ≤ d → levels D t →
  levels D (insert (S d) t k) ∨ levels (S D) (insert (S d) t k).
Proof.
  intros Hs Hh HD. unfold insert.
  destruct (decide (full t)) as [Hf|Hf].
  - right. set (t0 := Bt false [] [t]).
    assert (shape t0) as Hs0
      by (constructor; [rewrite MAX_val; simpl; lia | done | by repeat constructor]).
    assert (height t0 ≤ S d) as Hh0 by (apply height_le; by repeat constructor).
    destruct (split_child_facts d [] [t] 0 t) as
      (m & l & r & cs' & E & Ecs & Hs1 & Hh1 & Hl & Hr & _ & _);
      [done | rewrite MAX_val; simpl; lia | done | done | done |].
    destruct (levels_split D false [] [t] 0 t) as (m' & cs'' & E' & HD');
      [done | done | done | by repeat constructor |].
    fold t0 in E, E'. rewrite E in E'. injection E' as _ <-. rewrite E.
    apply levels_insert_nonfull; [done| |done|done].
    unfold full. rewrite MAX_val. simpl. lia.
  - left. apply levels_insert_nonfull; [done|done|lia|done].
Qed.

(** The number of keys of a balanced tree. *)
Lemma interleave_length (ls : list (list N)) ks :
  length ks ≤ length ls →
  length (interleave ls ks) = length ks + length (concat ls).
Proof.
  revert ks. induction ls as [|l ls IH]; intros [|x ks] Hlen;
    simpl in *; try lia.
  rewrite length_app. simpl. rewrite IH by lia. rewrite length_app. lia.
Qed.

Lemma concat_length_bound (ls : list (list N)) m :
  Forall (λ l, m ≤ length l + 1) ls →
  length ls * m ≤ length (concat ls) + length ls.
Proof.
  induction 1 as [|l ls Hl _ IH]; simpl; [lia|]. rewrite length_app. lia.
Qed.

Lemma levels_keys_child D c :
  levels D c → shape c → min_keys c → 1 ≤ length (nkeys c) →
  2 ^ D ≤ length (inorder c) + 1.
Proof.
  revert c. induction D as [|D IH]; intros [lf ks cs] HD Hs Hm Hk; [done|].
  simpl in HD, Hk.
  inversion Hs as [? Hlk | ? ? Hlk Hlc Hsc]; subst.
  - simpl. simpl in HD. subst D. simpl. lia.
  - cbn [inorder]. rewrite interleave_length by (rewrite length_fmap; lia).
    inversion Hm as [? Hmc]; subst. simpl in Hmc.
    pose proof (concat_length_bound (inorder <$> cs) (2 ^ D)) as Hb.
    rewrite length_fmap in Hb.
    rewrite Nat.pow_succ_r'. rewrite Hlc in Hb.
    generalize dependent (2 ^ D). intros P IH Hb.
    assert (S (length ks) * P ≤ length (concat (inorder <$> cs)) + S (length ks))
      as Hb'; [|nia].
    apply Hb, Forall_fmap, Forall_lookup. intros j c Hc. simpl.
    eapply Forall_lookup_1 in HD as ?; [|done].
    eapply Forall_lookup_1 in Hsc as ?; [|done].
    eapply Forall_lookup_1 in Hmc as [? ?]; [|done].
    by apply IH.
Qed.

Lemma levels_keys D t :
  levels D t → shape t → min_keys t →
  2 ^ (D - 1) ≤ length (inorder t) + 1.
Proof.
  destruct D as [|D]; [done|]. destruct t as [lf ks cs]. intros HD Hs Hm.
  replace (S D - 1) with D by lia.
  inversion Hs as [? Hlk | ? ? Hlk Hlc Hsc]; subst.
  - simpl in HD. subst D. simpl. lia.
  - cbn [inorder]. rewrite interleave_length by (rewrite length_fmap; lia).
    inversion Hm as [? Hmc]; subst. simpl in Hmc. simpl in HD.
    pose proof (concat_length_bound (inorder <$> cs) (2 ^ D)) as Hb.
    rewrite length_fmap in Hb.
    rewrite Hlc in Hb.
    assert (S (length ks) * 2 ^ D
            ≤ length (concat (inorder <$> cs)) + S (length ks)) as Hb'; [|nia].
    apply Hb, Forall_fmap, Forall_lookup. intros j c Hc. simpl.
    eapply Forall_lookup_1 in HD as ?; [|done].
    eapply Forall_lookup_1 in Hsc as ?; [|done].
    eapply Forall_lookup_1 in Hmc as [? ?]; [|done].
    by apply levels_keys_child.
Qed.

Lemma levels_height D t : levels D t → shape t → height t = D.
Proof.
  revert t. induction D as [|D IH]; intros [lf ks cs] HD Hs; [done|].
  inversion Hs as [? Hlk | ? ? Hlk Hlc Hsc]; subst.
  - simpl in HD. by subst D.
  - simpl in HD. simpl. f_equal.
    destruct cs as [|c cs]; [done|]. clear Hlc.
    induction cs as [|c' cs IHcs] in c, HD, Hsc |- *.
    + inversion HD; subst. inversion Hsc; subst. simpl. rewrite (IH c); [lia|done..].
    + inversion HD as [|? ? Hc HD']; subst. inversion Hsc as [|? ? Hsc0 Hsc']; subst.
      specialize (IHcs c' HD' Hsc'). simpl in *. rewrite (IH c) by done. lia.
Qed.

End balance.

(** * The code computes the functional tree *)

#[local] Open Scope Z_scope.
#[local] Open Scope cmd_scope.

(** ** Running the primitives *)

Section primitives.

Context (h : gmap nat object) (pl : list bool) (lg : list (loglevel * string)).
Abbreviation st := (Build_mem h pl lg).

Lemma bind_Ok {A B} (c : M A) (k : A → M B) m a m1 r :
  c m = Ok a m1 → k a m1 = r → bind c k m = r.
Proof. unfold bind. by intros ->. Qed.

Lemma load_node_Ok p n :
  p ≠ NULL → h !! p = Some (Onode n) → load_node p st = Ok n st.
Proof. intros ? Hp. unfold load_node. simpl. by rewrite decide_False, Hp. Qed.

Lemma store_node_Ok p n n' :
  p ≠ NULL → h !! p = Some (Onode n) →
  store_node p n' st = Ok tt (Build_mem (<[p := Onode n']> h) pl lg).
Proof. intros ? Hp. unfold store_node. simpl. by rewrite decide_False, Hp. Qed.

Lemma get_is_leaf_Ok p n :
  p ≠ NULL → h !! p = Some (Onode n) → get_is_leaf p st = Ok (is_leaf n) st.
Proof. intros. unfold get_is_leaf. eapply bind_Ok; [by apply load_node_Ok|done]. Qed.

Lemma get_num_keys_Ok p n :
  p ≠ NULL → h !! p = Some (Onode n) → get_num_keys p st = Ok (num_keys n) st.
Proof. intros. unfold get_num_keys. eapply bind_Ok; [by apply load_node_Ok|done]. Qed.

Lemma index_Ok {A} (a : list A) i x m :
  0 ≤ i → a !! Z.to_nat i = Some x → index a i m = Ok x m.
Proof. intros ? Hx. unfold index. by rewrite decide_True, Hx. Qed.

Lemma update_Ok {A} (a : list A) i v m :
  0 ≤ i < Z.of_nat (length a) → update a i v m = Ok (<[Z.to_nat i := v]> a) m.
Proof. intros ?. unfold update. by rewrite decide_True. Qed.

Lemma get_keys_Ok p n i x :
  p ≠ NULL → h !! p = Some (Onode n) →
  0 ≤ i → keys n !! Z.to_nat i = Some x →
  get_keys p i st = Ok x st.
Proof.
  intros. unfold get_keys.
  eapply bind_Ok; [by apply load_node_Ok | by apply index_Ok].
Qed.

Lemma get_children_Ok p n i x :
  p ≠ NULL → h !! p = Some (Onode n) →
  0 ≤ i → children n !! Z.to_nat i = Some x →
  get_children p i st = Ok x st.
Proof.
  intros. unfold get_children.
  eapply bind_Ok; [by apply load_node_Ok | by apply index_Ok].
Qed.

Lemma set_is_leaf_Ok p n b :
  p ≠ NULL → h !! p = Some (Onode n) →
  set_is_leaf p b st
  = Ok tt (Build_mem
      (<[p := Onode (Build_node b (num_keys n) (keys n) (children n))]> h) pl lg).
Proof.
  intros. unfold set_is_leaf.
  eapply bind_Ok; [by apply load_node_Ok | by eapply store_node_Ok].
Qed.

Lemma set_num_keys_Ok p n v :
  p ≠ NULL → h !! p = Some (Onode n) →
  set_num_keys p v st
  = Ok tt (Build_mem
      (<[p := Onode (Build_node (is_leaf n) v (keys n) (children n))]> h) pl lg).
Proof.
  intros. unfold set_num_keys.
  eapply bind_Ok; [by apply load_node_Ok | by eapply store_node_Ok].
Qed.

Lemma set_keys_Ok p n i v :
  p ≠ NULL → h !! p = Some (Onode n) →
  0 ≤ i < Z.of_nat (length (keys n)) →
  set_keys p i v st
  = Ok tt (Build_mem
      (<[p := Onode (Build_node (is_leaf n) (num_keys n)
                       (<[Z.to_nat i := v]> (keys n)) (children n))]> h) pl lg).
Proof.
  intros. unfold set_keys.
  eapply bind_Ok; [by apply load_node_Ok|].
  eapply bind_Ok; [by apply update_Ok | by eapply store_node_Ok].
Qed.

Lemma set_children_Ok p n i v :
  p ≠ NULL → h !! p = Some (Onode n) →
  0 ≤ i < Z.of_nat (length (children n)) →
  set_children p i v st
  = Ok tt (Build_mem
      (<[p := Onode (Build_node (is_leaf n) (num_keys n) (keys n)
                       (<[Z.to_nat i := v]> (children n)))]> h) pl lg).
Proof.
  intros. unfold set_children.
  eapply bind_Ok; [by apply load_node_Ok|].
  eapply bind_Ok; [by apply update_Ok | by eapply store_node_Ok].
Qed.

Lemma load_root_Ok p r :
  p ≠ NULL → h !! p = Some (Oroot r) → load_root p st = Ok r st.
Proof. intros ? Hp. unfold load_root. simpl. by rewrite decide_False, Hp. Qed.

Lemma get_root_Ok p r :
  p ≠ NULL → h !! p = Some (Oroot r) → get_root p st = Ok (root r) st.
Proof. intros. unfold get_root. eapply bind_Ok; [by apply load_root_Ok|done]. Qed.

Lemma set_root_Ok p r v :
  p ≠ NULL → h !! p = Some (Oroot r) →
  set_root p v st = Ok tt (Build_mem (<[p := Oroot (Build_root v)]> h) pl lg).
Proof.
  intros ? Hp. unfold set_root.
  eapply bind_Ok; [by apply load_root_Ok|].
  unfold store_root. simpl. by rewrite decide_False, Hp.
Qed.

(** A successful [kzalloc]: a fresh non-null address. *)
Lemma kzalloc_Ok zero :
  head pl ≠ Some true →
  ∃ q, q ≠ NULL ∧ h !! q = None ∧
       kzalloc zero st = Ok q (Build_mem (<[q := zero]> h) (tail pl) lg).
Proof.
  intros Hpl. exists (fresh ({[NULL]} ∪ dom h)).
  pose proof (is_fresh ({[NULL]} ∪ dom h)) as Hf.
  split_and!.
  - set_solver.
  - apply not_elem_of_dom. set_solver.
  - unfold kzalloc. simpl. by destruct pl as [|[] ?].
Qed.

End primitives.

(** Looking a pointer up in a heap built by stores. *)
Ltac heap_lookup :=
  repeat first
    [ rewrite lookup_insert_eq
    | rewrite lookup_insert_ne by (done || congruence) ];
  first [ reflexivity | eassumption ].

Ltac side := first [ done | lia | heap_lookup | (simpl; lia) | (simpl; reflexivity) ].

Ltac collapse := rewrite ?insert_insert_eq.

(** One primitive in a goal [op st = Ok ?a ?st']. *)
Ltac run_op :=
  lazymatch goal with
  | |- ret _ _ = _ => reflexivity
  | |- get_is_leaf _ _ = _ => eapply get_is_leaf_Ok; side
  | |- get_num_keys _ _ = _ => eapply get_num_keys_Ok; side
  | |- get_keys _ _ _ = _ => eapply get_keys_Ok; side
  | |- get_children _ _ _ = _ => eapply get_children_Ok; side
  | |- get_root _ _ = _ => eapply get_root_Ok; side
  | |- set_is_leaf _ _ _ = _ => etrans; [eapply set_is_leaf_Ok; side | collapse; reflexivity]
  | |- set_num_keys _ _ _ = _ => etrans; [eapply set_num_keys_Ok; side | collapse; reflexivity]
  | |- set_keys _ _ _ _ = _ => etrans; [eapply set_keys_Ok; side | collapse; reflexivity]
  | |- set_children _ _ _ _ = _ => etrans; [eapply set_children_Ok; side | collapse; reflexivity]
  | |- set_root _ _ _ = _ => etrans; [eapply set_root_Ok; side | collapse; reflexivity]
  end.

(** Resolve a test on known values. *)
Ltac run_test :=
  lazymatch goal with
  | |- context [decide ?P] =>
      first [ rewrite (decide_True (P := P)) by (done || lia)
            | rewrite (decide_False (P := P)) by (done || lia) ]
  end.

Ltac run :=
  repeat first
    [ progress cbn [search_for search_while copy_keys copy_children
                    shift_children shift_keys leaf_shift child_scan
                    is_leaf num_keys keys children negb
                    btree_insert_nonfull]
    | lazymatch goal with
      | |- bind _ _ _ = _ => eapply bind_Ok; [solve [run]|]
      end
    | run_test
    | run_op ].

(** Decide the remaining tests from the comparisons in the context. *)
Ltac tests := repeat (case_decide; try lia); try done.

Section node_runs.

Context (h : gmap nat object) (pl : list bool) (lg : list (loglevel * string)).
Abbreviation st := (Build_mem h pl lg).

(** The scan of [btree_insert_nonfull] in an internal node stops at
    [slot]. *)
Lemma child_scan_run p n ks k fuel :
  p ≠ NULL → h !! p = Some (Onode n) →
  length (keys n) = 3%nat → (length ks < 3)%nat →
  take (length ks) (keys n) = ks → num_keys n = Z.of_nat (length ks) →
  (4 ≤ fuel)%nat →
  child_scan fuel p k (num_keys n) st = Ok (Z.of_nat (slot ks k)) st.
Proof.
  intros Hp Hn Hlen Hks Htake Hnk Hfuel.
  do 4 (destruct fuel as [|fuel]; [lia|]).
  destruct n as [lf nk [|x0 [|x1 [|x2 [|]]]] chs]; simplify_eq/=.
  destruct ks as [|y0 [|y1 [|y2 [|]]]]; simplify_eq/=; try lia.
  - run.
  - destruct (decide (k < y0)%N); run.
  - destruct (decide (k < y1)%N); [destruct (decide (k < y0)%N)|]; run.
Qed.

(** [btree_insert_nonfull] on a leaf with room. *)
Lemma leaf_insert_run p n ks k fuel :
  p ≠ NULL → h !! p = Some (Onode n) → is_leaf n = true →
  length (keys n) = 3%nat → (length ks < 3)%nat →
  take (length ks) (keys n) = ks → num_keys n = Z.of_nat (length ks) →
  (5 ≤ fuel)%nat →
  ∃ n',
    btree_insert_nonfull fuel p k st
    = Ok tt (Build_mem (<[p := Onode n']> h) pl lg) ∧
    is_leaf n' = true ∧ num_keys n' = Z.of_nat (S (length ks)) ∧
    length (keys n') = 3%nat ∧ children n' = children n ∧
    take (S (length ks)) (keys n') = insert_at (slot ks k) k ks.
Proof.
  intros Hp Hn Hlf Hlen Hks Htake Hnk Hfuel.
  do 5 (destruct fuel as [|fuel]; [lia|]).
  destruct n as [lf nk [|x0 [|x1 [|x2 [|]]]] chs]; simplify_eq/=.
  destruct ks as [|y0 [|y1 [|y2 [|]]]]; simplify_eq/=; try lia.
  - eexists; split; [run|]. simpl. tests.
  - destruct (decide (k < y0)%N);
      (eexists; split; [run|]; simpl; tests).
  - destruct (decide (k < y1)%N); [destruct (decide (k < y0)%N)|];
      (eexists; split; [run|]; simpl; tests).
Qed.

(** The [for] loop of [btree_search]. *)
Lemma search_for_run p n ks k fuel :
  p ≠ NULL → h !! p = Some (Onode n) →
  length (keys n) = 3%nat →
  take (length ks) (keys n) = ks → num_keys n = Z.of_nat (length ks) →
  (4 ≤ fuel)%nat →
  search_for fuel p k 0 st = Ok (Z.of_nat <$> search_slot ks k) st.
Proof.
  intros Hp Hn Hlen Htake Hnk Hfuel.
  do 4 (destruct fuel as [|fuel]; [lia|]).
  destruct n as [lf nk [|x0 [|x1 [|x2 [|]]]] chs]; simplify_eq/=.
  assert (length ks ≤ 3)%nat as Hks.
  { rewrite <-Htake, length_take. simpl. lia. }
  destruct ks as [|y0 [|y1 [|y2 [|]]]]; simplify_eq/=; try lia.
  - run.
  - destruct (decide (k < y0)%N); [|destruct (decide (k = y0))]; run.
  - destruct (decide (k < y0)%N); [|destruct (decide (k = y0));
      [|destruct (decide (k < y1)%N); [|destruct (decide (k = y1))]]]; run.
  - destruct (decide (k < y0)%N); [|destruct (decide (k = y0));
      [|destruct (decide (k < y1)%N); [|destruct (decide (k = y1));
      [|destruct (decide (k < y2)%N); [|destruct (decide (k = y2))]]]]]; run.
Qed.

End node_runs.

Section split_run.

Context (h : gmap nat object) (pl : list bool) (lg : list (loglevel * string)).

(** [btree_split_child] on a parent with room and a full child. *)
Lemma split_child_run fuel parent index P c C :
  parent ≠ NULL → h !! parent = Some (Onode P) →
  length (keys P) = 3%nat → length (children P) = 4%nat →
  0 ≤ index ≤ num_keys P → num_keys P < BTREE_MAX_KEYS →
  children P !! Z.to_nat index = Some c →
  c ≠ NULL → c ≠ parent → h !! c = Some (Onode C) →
  num_keys C = BTREE_MAX_KEYS →
  length (keys C) = 3%nat → length (children C) = 4%nat →
  head pl ≠ Some true → (5 ≤ fuel)%nat →
  ∃ q P' Q,
    q ≠ NULL ∧ h !! q = None ∧
    btree_split_child fuel parent index (Build_mem h pl lg)
    = Ok tt (Build_mem
        (<[parent := Onode P']>
           (<[c := Onode (Build_node (is_leaf C) 1 (keys C) (children C))]>
              (<[q := Onode Q]> h)))
        (tail pl) lg) ∧
    is_leaf Q = is_leaf C ∧ num_keys Q = 1 ∧
    length (keys Q) = 3%nat ∧ length (children Q) = 4%nat ∧
    take 1 (keys Q) = drop 2 (keys C) ∧
    (is_leaf C = false → take 2 (children Q) = drop 2 (children C)) ∧
    is_leaf P' = is_leaf P ∧ num_keys P' = num_keys P + 1 ∧
    length (keys P') = 3%nat ∧ length (children P') = 4%nat ∧
    take (Z.to_nat (num_keys P + 1)) (keys P')
    = insert_at (Z.to_nat index) (default 0%N (keys C !! 1%nat))
                (take (Z.to_nat (num_keys P)) (keys P)) ∧
    take (Z.to_nat (num_keys P + 2)) (children P')
    = insert_at (Z.to_nat (index + 1)) q
                (take (Z.to_nat (num_keys P + 1)) (children P)).
Proof.
  intros Hp HP HlkP HlcP Hidx Hroom Hc Hc0 Hcp HC HfullC HlkC HlcC Hpl Hfuel.
  do 5 (destruct fuel as [|fuel]; [lia|]).
  destruct P as [plf pnk [|x0 [|x1 [|x2 [|]]]] [|c0 [|c1 [|c2 [|c3 [|]]]]]];
    simplify_eq/=.
  destruct C as [lf cnk [|a [|m [|b [|]]]] [|d0 [|d1 [|d2 [|d3 [|]]]]]];
    simplify_eq/=.
  change BTREE_MAX_KEYS with 3 in *.
  destruct (kzalloc_Ok h pl lg (Onode zero_node) Hpl) as (q & Hq0 & Hqf & Hk).
  assert (q ≠ parent) as Hqp by congruence.
  assert (q ≠ c) as Hqc by congruence.
  exists q.
  unfold btree_split_child. change (Z.quot BTREE_MAX_KEYS 2) with 1.
  change BTREE_MAX_KEYS with 3. cbn zeta.
  assert (pnk = 0 ∨ pnk = 1 ∨ pnk = 2) as Hpnk by lia.
  assert (index = 0 ∨ index = 1 ∨ index = 2) as Hind by lia.
  destruct lf;
  destruct Hpnk as [-> | [-> | ->]]; destruct Hind as [-> | [-> | ->]]; try lia;
    simplify_eq/=;
    (do 2 eexists; split; [done|]; split; [done|]; split;
     [ eapply bind_Ok; [solve [run]|];
       eapply bind_Ok; [exact Hk|];
       rewrite decide_False by done; unfold zero_node; simpl replicate; run
     | done ]).
Qed.

End split_run.

Lemma ptree_ind' (P : ptree → Prop) :
  (∀ a lf ks cs, Forall P cs → P (Pt a lf ks cs)) → ∀ t, P t.
Proof.
  intros step. fix IH 1. intros [a lf ks cs]. apply step.
  induction cs as [|c cs IHcs]; constructor; [apply IH | exact IHcs].
Qed.

(** ** Trees in the heap *)

Section rep_facts.

Implicit Types (h : gmap nat object) (t c : ptree).

Lemma erase_Pt a lf ks cs : erase (Pt a lf ks cs) = Bt lf ks (erase <$> cs).
Proof. done. Qed.
Lemma addrs_Pt a lf ks cs :
  addrs (Pt a lf ks cs) = a :: mjoin (addrs <$> cs).
Proof. done. Qed.

Lemma addr_in_addrs t : addr t ∈ addrs t.
Proof. destruct t; simpl. set_solver. Qed.

Lemma addrs_child a lf ks cs j c p :
  cs !! j = Some c → p ∈ addrs c → p ∈ addrs (Pt a lf ks cs).
Proof.
  intros Hc Hp. simpl. apply elem_of_cons. right.
  apply list_elem_of_join. exists (addrs c). split; [done|].
  apply list_elem_of_fmap. exists c. split; [done|].
  by eapply list_elem_of_lookup_2.
Qed.

Lemma rep_lookup h t p :
  rep h t → p ∈ addrs t → ∃ n, h !! p = Some (Onode n).
Proof.
  induction t as [a lf ks cs IH] using ptree_ind'. intros Hr Hp.
  inversion Hr as [? ? ? ? n ? Hn ? ? ? ? ? ? Hcs]; subst. simpl in Hp.
  apply elem_of_cons in Hp as [->|Hp]; [eauto|].
  apply list_elem_of_join in Hp as (l & Hp & Hl).
  apply list_elem_of_fmap in Hl as (c & -> & Hc).
  rewrite Forall_forall in IH, Hcs. eauto.
Qed.

Lemma rep_frame_eq h h' t :
  rep h t → (∀ p, p ∈ addrs t → h' !! p = h !! p) → rep h' t.
Proof.
  induction t as [a lf ks cs IH] using ptree_ind'. intros Hr Hsame.
  inversion Hr as [? ? ? ? n ? Hn ? ? ? ? ? ? Hcs]; subst.
  econstructor; try done.
  - rewrite Hsame; [done|]. simpl. set_solver.
  - apply Forall_lookup. intros j c Hc.
    eapply Forall_lookup_1 in IH; [|done]. apply IH.
    + by eapply Forall_lookup_1 in Hcs.
    + intros p Hp. apply Hsame. by eapply addrs_child.
Qed.

Lemma rep_frame h h' t fp :
  rep h t → frame h h' fp → (∀ p, p ∈ addrs t → p ∉ fp) → rep h' t.
Proof.
  intros Hr Hf Hd. apply (rep_frame_eq h); [done|]. intros p Hp.
  destruct (rep_lookup h t p Hr Hp) as [n Hn]. rewrite Hn.
  apply Hf; [done | by apply Hd].
Qed.

Lemma erase_addr_shape t : leaf (erase t) = let 'Pt _ lf _ _ := t in lf.
Proof. by destruct t. Qed.

Lemma concat_addrs_middle (cs : list ptree) j c :
  cs !! j = Some c →
  mjoin (addrs <$> cs)
  = mjoin (addrs <$> take j cs) ++ addrs c ++ mjoin (addrs <$> drop (S j) cs).
Proof.
  intros Hc. rewrite <-(take_drop_middle cs j c Hc) at 1.
  by rewrite fmap_app, join_app, fmap_cons.
Qed.

Lemma concat_addrs_insert (cs : list ptree) j c c' :
  cs !! j = Some c →
  mjoin (addrs <$> <[j := c']> cs)
  = mjoin (addrs <$> take j cs) ++ addrs c' ++ mjoin (addrs <$> drop (S j) cs).
Proof.
  intros Hc. apply lookup_lt_Some in Hc as Hj.
  rewrite (concat_addrs_middle (<[j:=c']> cs) j c')
    by (by apply list_lookup_insert_eq).
  by rewrite take_insert_ge, drop_insert_lt by lia.
Qed.

(** A node whose child at slot [j] was rebuilt in place. *)
Lemma descend_rep h h' a ks cs j c c' :
  rep h (Pt a false ks cs) → NoDup (addrs (Pt a false ks cs)) →
  cs !! j = Some c →
  rep h' c' → addr c' = addr c → NoDup (addrs c') →
  frame h h' (addrs c) → grown h (addrs c') (addrs c) →
  rep h' (Pt a false ks (<[j := c']> cs)) ∧
  NoDup (addrs (Pt a false ks (<[j := c']> cs))) ∧
  frame h h' (addrs (Pt a false ks cs)) ∧
  grown h (addrs (Pt a false ks (<[j := c']> cs))) (addrs (Pt a false ks cs)).
Proof.
  intros Hr Hnd Hc Hr' Haddr Hnd' Hfr Hgr.
  inversion Hr as [? ? ? ? n ? Hn ? ? ? ? ? Hch Hcs]; subst.
  cbn [addrs] in *. rewrite (concat_addrs_insert _ _ _ _ Hc).
  rewrite (concat_addrs_middle _ _ _ Hc) in Hnd |- *.
  set (A := mjoin (addrs <$> take j cs)) in *.
  set (B := mjoin (addrs <$> drop (S j) cs)) in *.
  apply NoDup_cons in Hnd as [Ha Hnd].
  apply NoDup_app in Hnd as (HA & HAcB & Hnd).
  apply NoDup_app in Hnd as (Hc0 & HcB & HB).
  assert (∀ p, p ∈ A ++ B → p ∈ addrs (Pt a false ks cs)) as HABin.
  { intros p Hp. simpl. rewrite (concat_addrs_middle _ _ _ Hc).
    fold A B. set_solver. }
  assert (∀ p, p ∈ a :: A ++ B → is_Some (h !! p)) as Hlive.
  { intros p [->|Hp]%elem_of_cons; [by rewrite Hn|].
    destruct (rep_lookup h _ p Hr (HABin p Hp)) as [? ->]. eauto. }
  assert (∀ p, p ∈ addrs c' → p ∉ a :: A ++ B) as Hfresh.
  { intros p Hp Hin. destruct (Hgr p Hp) as [Hold|Hnone].
    - set_solver.
    - apply Hlive in Hin. rewrite Hnone in Hin. by destruct Hin. }
  split_and!.
  - econstructor; try done.
    + apply Hfr; [done|]. set_solver.
    + rewrite length_insert, list_fmap_insert, Haddr.
      rewrite Hch. apply eq_sym, list_insert_id.
      by rewrite list_lookup_fmap, Hc.
    + apply Forall_lookup. intros i ci.
      destruct (decide (i = j)) as [->|Hij].
      * rewrite list_lookup_insert_eq by (by eapply lookup_lt_Some).
        by intros [= <-].
      * rewrite list_lookup_insert_ne by done. intros Hci.
        eapply rep_frame; [by eapply Forall_lookup_1 in Hcs | done |].
        intros p Hp Hpc.
        assert (p ∈ A ++ B) as HpAB.
        { apply elem_of_app.
          destruct (decide (i < j)%nat).
          - left. apply list_elem_of_join. exists (addrs ci). split; [done|].
            apply list_elem_of_fmap. exists ci. split; [done|].
            apply (list_elem_of_lookup_2 _ i). by rewrite lookup_take_lt.
          - right. apply list_elem_of_join. exists (addrs ci). split; [done|].
            apply list_elem_of_fmap. exists ci. split; [done|].
            apply (list_elem_of_lookup_2 _ (i - S j)).
            rewrite lookup_drop. rewrite <-Hci. f_equal. lia. }
        set_solver.
  - apply NoDup_cons. split; [set_solver|].
    apply NoDup_app. split_and!; [done | set_solver |].
    apply NoDup_app. split_and!; [done | set_solver | done].
  - intros p o Hp Hnin. apply Hfr; [done|]. set_solver.
  - intros p Hp. apply elem_of_cons in Hp as [->|Hp]; [set_solver|].
    apply elem_of_app in Hp as [Hp|[Hp|Hp]%elem_of_app]; [set_solver| |set_solver].
    destruct (Hgr p Hp); [set_solver | by right].
Qed.

End rep_facts.

Section extends_facts.

Implicit Types (h : gmap nat object) (t c : ptree).

Lemma extends_refl h fp : extends h h fp fp.
Proof. split; [done|]. intros p ?. by left. Qed.

Lemma extends_trans h h1 h2 fp fp1 fp2 :
  extends h h1 fp fp1 → extends h1 h2 fp1 fp2 → extends h h2 fp fp2.
Proof.
  intros [K1 T1] [K2 T2]. split; [by auto|].
  intros p Hp. destruct (T2 p Hp) as [Hp1|?]; [|by right].
  destruct (T1 p Hp1) as [?|?]; [by left|]. right. by apply K2.
Qed.

(** The addresses of a node whose child at slot [j] was rebuilt. *)
Lemma descend_extends h h' a lf ks cs j c c' :
  cs !! j = Some c → extends h h' (addrs c) (addrs c') →
  extends h h' (addrs (Pt a lf ks cs)) (addrs (Pt a lf ks (<[j := c']> cs))).
Proof.
  intros Hc [K T]. rewrite !addrs_Pt.
  rewrite (concat_addrs_insert _ _ _ _ Hc), (concat_addrs_middle _ _ _ Hc).
  split.
  - intros p. rewrite !elem_of_cons, !elem_of_app. naive_solver.
  - intros p Hp. destruct (T p Hp) as [?|?]; [by left|]. right.
    rewrite elem_of_cons, !elem_of_app. naive_solver.
Qed.

End extends_facts.

Section split_rep.

Implicit Types (h : gmap nat object) (t c : ptree).

Lemma rep_full_keys h a lf ks cs n :
  h !! a = Some (Onode n) → rep h (Pt a lf ks cs) → length ks = 3%nat →
  keys n = ks ∧ num_keys n = 3 ∧ is_leaf n = lf ∧
  length (children n) = 4%nat ∧ take (length cs) (children n) = addr <$> cs.
Proof.
  intros Hn Hr Hlen.
  inversion Hr as [? ? ? ? n' ? Hn' ? Hnk Hlk Hlc Htk Hch Hcs]; subst.
  simplify_eq. split_and!; try done; [|by rewrite Hnk, Hlen].
  symmetry. rewrite <-Htk. apply take_ge. rewrite Hlk, Hlen. done.
Qed.

(** [btree_split_child] on a represented node with room whose child at
    slot [i] is full. *)
Lemma split_rep h lg fuel a ks cs (i : nat) c :
  rep h (Pt a false ks cs) → NoDup (addrs (Pt a false ks cs)) →
  shape (erase (Pt a false ks cs)) → (length ks < 3)%nat →
  cs !! i = Some c → full (erase c) → (5 ≤ fuel)%nat →
  ∃ h1 t1,
    btree_split_child fuel a (Z.of_nat i) (Build_mem h [] lg)
    = Ok tt (Build_mem h1 [] lg) ∧
    rep h1 t1 ∧ addr t1 = a ∧
    erase t1 = split_child (erase (Pt a false ks cs)) i ∧
    NoDup (addrs t1) ∧
    frame h h1 (addrs (Pt a false ks cs)) ∧
    grown h (addrs t1) (addrs (Pt a false ks cs)) ∧
    extends h h1 (addrs (Pt a false ks cs)) (addrs t1).
Proof.
  intros Hr Hnd Hsh Hroom Hc Hfull Hfuel.
  inversion Hr as [? ? ? ? P Ha HP ? Hnk HlkP HlcP Htk Hch Hcs]; subst.
  destruct c as [ca clf cks ccs].
  assert (rep h (Pt ca clf cks ccs)) as Hrc by (by eapply Forall_lookup_1 in Hcs).
  inversion Hrc as [? ? ? ? C Hca HC ? HnkC HlkC HlcC HtkC HchC HccsR]; subst.
  change (Z.to_nat BTREE_ORDER) with 4%nat in *.
  change (Z.to_nat BTREE_MAX_KEYS) with 3%nat in *.
  unfold full in Hfull. rewrite MAX_val in Hfull. simpl in Hfull.
  destruct (rep_full_keys h ca _ cks ccs C HC Hrc Hfull) as (HkC & _ & _ & _ & _).
  destruct cks as [|x [|m [|z [|]]]]; simplify_eq/=.
  (* the shape of the child *)
  inversion Hsh as [|? ? _ Hlcs Hshc]; subst.
  rewrite length_fmap in Hlcs.
  assert (shape (Bt (is_leaf C) [x; m; z] (erase <$> ccs))) as HshC.
  { eapply Forall_lookup_1 in Hshc; [done|]. by rewrite list_lookup_fmap, Hc. }
  apply lookup_lt_Some in Hc as Hi.
  assert (children P !! i = Some ca) as Hci.
  { rewrite <-(lookup_take_lt _ (length cs)) by done.
    by rewrite Hch, list_lookup_fmap, Hc. }
  (* addresses *)
  rewrite (concat_addrs_middle _ _ _ Hc) in Hnd. cbn [addrs] in Hnd.
  set (A := mjoin (addrs <$> take i cs)) in *.
  set (B := mjoin (addrs <$> drop (S i) cs)) in *.
  assert (mjoin (addrs <$> ccs)
          = mjoin (addrs <$> take 2 ccs) ++ mjoin (addrs <$> drop 2 ccs)) as HG.
  { by rewrite <-join_app, <-fmap_app, take_drop. }
  rewrite HG in Hnd.
  set (G1 := mjoin (addrs <$> take 2 ccs)) in *.
  set (G2 := mjoin (addrs <$> drop 2 ccs)) in *.
  assert (a ≠ ca) as Haca by (apply NoDup_cons in Hnd as [Hnd _]; set_solver).
  destruct (split_child_run h [] lg fuel a (Z.of_nat i) P ca C)
    as (q & P' & Q & Hq & Hqf & Hrun & HQl & HQn & HQlk & HQlc & HQk & HQc
        & HPl & HPn & HPlk & HPlc & HPk & HPc);
    try done; try lia.
  { rewrite Hnk. change BTREE_MAX_KEYS with 3. lia. }
  { by rewrite Nat2Z.id. }
  rewrite Hnk in HPk, HPc, HPn.
  replace (Z.to_nat (Z.of_nat (length ks) + 1)) with (S (length ks)) in * by lia.
  replace (Z.to_nat (Z.of_nat (length ks) + 2)) with (S (S (length ks))) in * by lia.
  replace (Z.to_nat (Z.of_nat i + 1)) with (S i) in * by lia.
  rewrite !Nat2Z.id in *. rewrite Htk, HkC in HPk. simpl in HPk.
  rewrite <-Hlcs, Hch in HPc. rewrite HkC in HQk. simpl in HQk.
  set (h1 := <[a:=Onode P']> (<[ca:=Onode _]> (<[q:=Onode Q]> h))) in *.
  set (L := Pt ca (is_leaf C) [x] (take 2 ccs)).
  set (R := Pt q (is_leaf C) [z] (drop 2 ccs)).
  exists h1, (Pt a false (insert_at i m ks) (take i cs ++ L :: R :: drop (S i) cs)).
  assert (∀ p, p ∈ a :: A ++ (ca :: G1 ++ G2) ++ B → is_Some (h !! p)) as Hlive.
  { intros p Hp.
    destruct (rep_lookup h _ p Hr) as [? ->]; [|eauto].
    cbn [addrs]. rewrite (concat_addrs_middle _ _ _ Hc). cbn [addrs].
    rewrite HG. exact Hp. }
  assert (q ∉ a :: A ++ (ca :: G1 ++ G2) ++ B) as Hqnew.
  { intros Hin%Hlive. rewrite Hqf in Hin. by destruct Hin. }
  assert (a ≠ q ∧ ca ≠ q) as [Haq Hcaq].
  { split; intros ->; apply Hqnew; set_solver. }
  assert (∀ p, p ≠ a → p ≠ ca → p ≠ q → h1 !! p = h !! p) as Hsame.
  { intros p ???. unfold h1. by rewrite !lookup_insert_ne. }
  assert (∀ s, rep h s →
            (∀ p, p ∈ addrs s → p ∈ A ++ G1 ++ G2 ++ B) → rep h1 s) as Hkeep.
  { intros s Hs Hin. apply (rep_frame_eq h); [done|]. intros p Hp%Hin.
    apply NoDup_cons in Hnd as [Hnd1 Hnd2].
    apply NoDup_app in Hnd2 as (_ & Hd1 & Hnd2). apply NoDup_app in Hnd2 as (Hnd2 & Hd2 & _).
    apply NoDup_cons in Hnd2 as [Hnd2 _].
    apply Hsame; [set_solver| |set_solver].
    intros ->. set_solver. }
  assert (∀ j s l, l !! j = Some s → ∀ p, p ∈ addrs s → p ∈ mjoin (addrs <$> l))
    as Hsub.
  { intros j s l Hs p Hp. apply list_elem_of_join. exists (addrs s).
    split; [done|]. apply list_elem_of_fmap. exists s. split; [done|].
    by eapply list_elem_of_lookup_2. }
  split_and!.
  - done.
  - eapply (rep_node _ _ _ _ _ P'); try done.
    + unfold h1. by rewrite lookup_insert_eq.
    + by rewrite HPl.
    + rewrite HPn, insert_at_length. lia.
    + by rewrite insert_at_length.
    + rewrite length_app. cbn [length]. rewrite length_take, length_drop.
      replace (i `min` length cs + S (S (length cs - S i)))%nat
        with (S (length cs)) by lia.
      rewrite HPc. unfold insert_at.
      rewrite fmap_app, !fmap_cons, <-fmap_take, <-fmap_drop.
      rewrite (take_S_r _ _ _ Hc), fmap_app.
      by rewrite <-app_assoc.
    + rewrite Forall_app, !Forall_cons. split_and!.
      * apply Forall_lookup. intros j s Hs. apply Hkeep.
        { eapply Forall_lookup_1 in Hcs; [done|].
          by apply lookup_take_Some in Hs as [? ?]. }
        intros p Hp. apply elem_of_app. left. by eapply Hsub.
      * subst L.
        eapply (rep_node _ _ _ _ _
                  (Build_node (is_leaf C) 1 (keys C) (children C))); try done.
        -- unfold h1. rewrite lookup_insert_ne, lookup_insert_eq by done. done.
        -- rewrite HkC. done.
        -- cbn [children].
           by rewrite length_take, fmap_take, <-HchC, take_take.
        -- apply Forall_lookup. intros j s Hs. apply Hkeep.
           { eapply Forall_lookup_1 in HccsR; [done|].
             by apply lookup_take_Some in Hs as [? ?]. }
           intros p Hp. apply elem_of_app. right. apply elem_of_app. left.
           by eapply Hsub.
      * subst R. eapply (rep_node _ _ _ _ _ Q); try done.
        -- unfold h1.
           by rewrite lookup_insert_ne, lookup_insert_ne, lookup_insert_eq.
        -- inversion HshC as [? ? | ? ? ? Hl4 ?]; subst.
           ++ by destruct ccs.
           ++ rewrite length_fmap in Hl4. simpl in Hl4.
              rewrite length_drop, Hl4. simpl.
              rewrite HQc by done. rewrite fmap_drop, <-HchC.
              rewrite Hl4. rewrite take_ge by lia. done.
        -- apply Forall_lookup. intros j s Hs. apply Hkeep.
           { eapply Forall_lookup_1 in HccsR; [done|].
             by rewrite lookup_drop in Hs. }
           intros p Hp. apply elem_of_app. right. apply elem_of_app. right.
           apply elem_of_app. left. by eapply Hsub.
      * apply Forall_lookup. intros j s Hs. apply Hkeep.
        { eapply Forall_lookup_1 in Hcs; [done|].
          by rewrite lookup_drop in Hs. }
        intros p Hp. do 3 (apply elem_of_app; right). by eapply Hsub.
  - done.
  - rewrite ?erase_Pt. erewrite split_child_eq;
      [|by rewrite list_lookup_fmap, Hc].
    rewrite fmap_app, !fmap_cons, fmap_take, !fmap_drop. subst L R.
    by rewrite !erase_Pt, fmap_take, fmap_drop.
  - cbn [addrs]. rewrite fmap_app, !fmap_cons, join_app. cbn [mjoin list_join addrs].
    fold A B G1 G2.
    change (mjoin (addrs <$> drop (S i) cs)) with B.
    apply NoDup_cons in Hnd as [Hnd1 Hnd2].
    apply NoDup_app in Hnd2 as (HA & Hd1 & Hnd2).
    apply NoDup_app in Hnd2 as (Hnd2 & Hd2 & HB).
    apply NoDup_cons in Hnd2 as [Hnd2 Hnd3].
    apply NoDup_app in Hnd3 as (HG1 & Hd3 & HG2).
    apply NoDup_cons. split; [set_solver|].
    apply NoDup_app. split_and!; [done|set_solver|].
    apply NoDup_cons. split; [set_solver|].
    apply NoDup_app. split_and!; [done|set_solver|].
    apply NoDup_cons. split; [set_solver|].
    apply NoDup_app. split_and!; [done|set_solver|done].
  - intros p o Hp Hnin. cbn [addrs] in Hnin.
    rewrite (concat_addrs_middle _ _ _ Hc) in Hnin. cbn [addrs] in Hnin.
    rewrite Hsame; [done|set_solver|set_solver|].
    intros ->. by rewrite Hqf in Hp.
  - intros p Hp. cbn [addrs] in Hp |- *.
    rewrite (concat_addrs_middle _ _ _ Hc). cbn [addrs].
    rewrite fmap_app, !fmap_cons, join_app in Hp. cbn [mjoin list_join addrs] in Hp.
    fold A B G1 G2 in Hp |- *.
    change (mjoin (addrs <$> drop (S i) cs)) with B in Hp.
    rewrite HG. fold G1 G2.
    destruct (decide (p = q)) as [->|Hpq]; [by right|]. left. set_solver.
  - cbn [addrs]. rewrite (concat_addrs_middle _ _ _ Hc). cbn [addrs].
    rewrite fmap_app, !fmap_cons, join_app. cbn [mjoin list_join addrs].
    fold A B G1 G2.
    change (mjoin (addrs <$> drop (S i) cs)) with B.
    rewrite HG. fold G1 G2. unfold L, R. rewrite !addrs_Pt. fold G1 G2.
    split.
    + intros p. set_unfold. naive_solver.
    + intros p Hp.
      destruct (decide (p = q)) as [->|Hpq].
      { right. set_unfold. naive_solver. }
      left. destruct (decide (p = a)) as [->|Hpa]; [by rewrite HP|].
      destruct (decide (p = ca)) as [->|Hpca]; [by rewrite HC|].
      by rewrite <-Hsame.
Qed.

End split_rep.

Section insert_rep.

Implicit Types (h : gmap nat object) (t c : ptree).

Lemma frame_trans h h1 h2 fp fp1 :
  frame h h1 fp → frame h1 h2 fp1 → grown h fp1 fp → frame h h2 fp.
Proof.
  intros F1 F2 G p o Hp Hnin. apply F2; [by apply F1|].
  intros Hin. destruct (G p Hin) as [?|Hnone]; [done|]. by rewrite Hnone in Hp.
Qed.

Lemma grown_trans h h1 fp fp1 fp2 :
  frame h h1 fp → grown h fp1 fp → grown h1 fp2 fp1 → grown h fp2 fp.
Proof.
  intros F1 G1 G2 p Hp. destruct (G2 p Hp) as [Hin|Hnone]; [by apply G1|].
  destruct (decide (p ∈ fp)) as [?|Hnin]; [by left|]. right.
  destruct (h !! p) as [o|] eqn:Ho; [|done].
  by rewrite (F1 p o Ho Hnin) in Hnone.
Qed.

Lemma frame_refl h fp : frame h h fp.
Proof. by intros p o. Qed.
Lemma grown_refl h fp : grown h fp fp.
Proof. intros p ?. by left. Qed.

Lemma rep_child_ptr h a lf ks cs n j c :
  h !! a = Some (Onode n) → rep h (Pt a lf ks cs) → cs !! j = Some c →
  children n !! j = Some (addr c) ∧ rep h c.
Proof.
  intros Hn Hr Hc.
  inversion Hr as [? ? ? ? n' ? Hn' ? ? ? ? ? Hch Hcs]; subst. simplify_eq.
  split; [|by eapply Forall_lookup_1 in Hcs].
  rewrite <-(lookup_take_lt _ (length cs)) by (by eapply lookup_lt_Some).
  by rewrite Hch, list_lookup_fmap, Hc.
Qed.

Lemma rep_key h a lf ks cs n j x :
  h !! a = Some (Onode n) → rep h (Pt a lf ks cs) → ks !! j = Some x →
  keys n !! j = Some x.
Proof.
  intros Hn Hr Hx.
  inversion Hr as [? ? ? ? n' ? Hn' ? ? ? ? Htk Hch Hcs]; subst. simplify_eq.
  rewrite <-(lookup_take_lt _ (length ks)) by (by eapply lookup_lt_Some).
  by rewrite Htk.
Qed.

Lemma NoDup_addrs_child a lf ks cs j c :
  NoDup (addrs (Pt a lf ks cs)) → cs !! j = Some c → NoDup (addrs c).
Proof.
  intros Hnd Hc. rewrite addrs_Pt, (concat_addrs_middle _ _ _ Hc) in Hnd.
  apply NoDup_cons in Hnd as [_ Hnd].
  apply NoDup_app in Hnd as (_ & _ & Hnd).
  by apply NoDup_app in Hnd as (? & _ & _).
Qed.

(** The internal-node step of [btree_insert_nonfull] on a represented
    node with room: the slot it returns, the tree after the possible
    split, and the same step of the functional [insert_nonfull]. *)
Lemma descend_slot_rep h lg fuel a ks cs k :
  rep h (Pt a false ks cs) → NoDup (addrs (Pt a false ks cs)) →
  shape (erase (Pt a false ks cs)) → (length ks < 3)%nat →
  (5 ≤ fuel)%nat →
  ∃ h1 ks1 cs1 (j : nat) cj,
    descend_slot fuel a k (Z.of_nat (length ks)) (Build_mem h [] lg)
    = Ok (Z.of_nat j) (Build_mem h1 [] lg) ∧
    rep h1 (Pt a false ks1 cs1) ∧ NoDup (addrs (Pt a false ks1 cs1)) ∧
    frame h h1 (addrs (Pt a false ks cs)) ∧
    grown h (addrs (Pt a false ks1 cs1)) (addrs (Pt a false ks cs)) ∧
    cs1 !! j = Some cj ∧ ¬ full (erase cj) ∧
    shape (erase (Pt a false ks1 cs1)) ∧
    (∀ d, height (erase (Pt a false ks cs)) ≤ S d →
          height (erase (Pt a false ks1 cs1)) ≤ S d)%nat ∧
    (∀ d, insert_nonfull (S d) (erase (Pt a false ks cs)) k
          = Bt false ks1
               (alter (λ b, insert_nonfull d b k) j (erase <$> cs1))) ∧
    extends h h1 (addrs (Pt a false ks cs)) (addrs (Pt a false ks1 cs1)).
Proof.
  intros Hr Hnd Hsh Hroom Hfuel.
  inversion Hr as [? ? ? ? n Ha Hn Hlf Hnk Hlk Hlc Htk Hch Hcs]; subst.
  change (Z.to_nat BTREE_ORDER) with 4%nat in *.
  change (Z.to_nat BTREE_MAX_KEYS) with 3%nat in *.
  inversion Hsh as [|? ? Hlen Hlcs Hshc]; subst.
  rewrite length_fmap in Hlcs.
  pose proof (slot_le ks k) as Hi. set (i := slot ks k) in *.
  destruct (lookup_lt_is_Some_2 cs i) as [c Hc]; [lia|].
  destruct (rep_child_ptr h a _ ks cs n i c Hn Hr Hc) as [Hci Hrc].
  assert (∃ C, addr c ≠ NULL ∧ h !! addr c = Some (Onode C) ∧
               num_keys C = Z.of_nat (length (nkeys (erase c)))) as (C & Hc0 & HC & HCn).
  { inversion Hrc; subst. simpl. eauto. }
  assert (descend_slot fuel a k (Z.of_nat (length ks)) (Build_mem h [] lg)
          = (if decide (num_keys C = BTREE_MAX_KEYS) then
               btree_split_child fuel a (Z.of_nat i);;
               k0 <- get_keys a (Z.of_nat i);
               if decide (k > k0)%N then ret (Z.of_nat i + 1) else ret (Z.of_nat i)
             else ret (Z.of_nat i)) (Build_mem h [] lg)) as Hstep.
  { unfold descend_slot.
    eapply bind_Ok.
    { rewrite <-Hnk. apply (child_scan_run h [] lg a n ks); try done; lia. }
    eapply bind_Ok.
    { eapply get_children_Ok; [done | done | lia | by rewrite Nat2Z.id]. }
    eapply bind_Ok; [by eapply get_num_keys_Ok|]. done. }
  rewrite Hstep. clear Hstep.
  assert ((erase <$> cs) !! i = Some (erase c)) as Hec
    by (by rewrite list_lookup_fmap, Hc).
  destruct (decide (full (erase c))) as [Hf|Hf].
  - (* the child is full: split, then choose a half *)
    rewrite decide_True by (rewrite HCn, Hf; done).
    destruct (split_rep h lg fuel a ks cs i c) as
      (h1 & t1 & Hsplit & Hr1 & Ha1 & He1 & Hnd1 & Hfr1 & Hgr1 & Hex1); try done.
    rewrite erase_Pt in He1.
    destruct (split_child_facts (height (Bt false ks (erase <$> cs)))
                ks (erase <$> cs) i (erase c)) as
      (m & l & r & cs' & E & Ecs & Hs1 & _ & Hl & Hr' & _ & _);
      [done | rewrite MAX_val; lia | lia | done | done |].
    destruct t1 as [a1 lf1 ks1 cs1]. rewrite E, erase_Pt in He1.
    simpl in Ha1. subst a1 cs'. injection He1 as -> -> Hcs1.
    assert ((erase <$> cs1) !! i = Some l ∧
            (erase <$> cs1) !! S i = Some r) as [Hli Hri].
    { rewrite Hcs1. split.
      - rewrite lookup_app_r by (rewrite length_take, length_fmap; lia).
        rewrite length_take, length_fmap.
        by replace (i - i `min` length cs)%nat with 0%nat by lia.
      - rewrite lookup_app_r by (rewrite length_take, length_fmap; lia).
        rewrite length_take, length_fmap.
        by replace (S i - i `min` length cs)%nat with 1%nat by lia. }
    rewrite <-Hcs1 in E, Hs1.
    inversion Hr1 as [? ? ? ? P1 _ HP1 ? ? ? ? ? ? ?]; subst.
    assert (keys P1 !! i = Some m) as Hkm.
    { eapply rep_key; [done..|]. by apply insert_at_lookup_eq. }
    set (j := if decide (k > m)%N then S i else i).
    assert (∃ cj, cs1 !! j = Some cj ∧ length (nkeys (erase cj)) = 1%nat)
      as (cj & Hcj & Hcj1).
    { subst j. case_decide.
      - rewrite list_lookup_fmap in Hri.
        destruct (cs1 !! S i) as [cj|]; simplify_eq/=. eauto.
      - rewrite list_lookup_fmap in Hli.
        destruct (cs1 !! i) as [cj|]; simplify_eq/=. eauto. }
    exists h1, (insert_at i m ks), cs1, j, cj. split_and!; try done.
    + eapply bind_Ok; [exact Hsplit|].
      eapply bind_Ok.
      { eapply get_keys_Ok; [done | done | lia | by rewrite Nat2Z.id]. }
      subst j. case_decide; unfold ret; do 2 f_equal; lia.
    + unfold full. rewrite Hcj1, MAX_val. lia.
    + intros d Hd. rewrite !erase_Pt in *. rewrite <-E.
      by eapply split_child_height; rewrite ?MAX_val.
    + intros d. rewrite erase_Pt. cbn [insert_nonfull leaf nkeys kids].
      fold i. rewrite Hec, decide_True by done. rewrite E.
      cbn [nkeys kids]. rewrite insert_at_lookup_eq by done.
      change (default 0%N (Some m)) with m. done.
  - (* the child has room *)
    rewrite decide_False.
    2:{ rewrite HCn. unfold full in Hf. rewrite MAX_val in Hf.
        change BTREE_MAX_KEYS with 3. lia. }
    exists h, ks, cs, i, c. split_and!; try done.
    + apply frame_refl.
    + apply grown_refl.
    + intros d. rewrite erase_Pt. cbn [insert_nonfull leaf nkeys kids].
      fold i. by rewrite Hec, decide_False.
    + apply extends_refl.
Qed.

(** [btree_insert_nonfull] computes [insert_nonfull] in place. *)
Lemma insert_nonfull_refines d t h k fuel lg :
  rep h t → NoDup (addrs t) → shape (erase t) → ¬ full (erase t) →
  (height (erase t) ≤ d)%nat → (d + 5 ≤ fuel)%nat →
  ∃ h' t',
    btree_insert_nonfull fuel (addr t) k (Build_mem h [] lg)
    = Ok tt (Build_mem h' [] lg) ∧
    rep h' t' ∧ addr t' = addr t ∧
    erase t' = insert_nonfull d (erase t) k ∧
    NoDup (addrs t') ∧ frame h h' (addrs t) ∧ grown h (addrs t') (addrs t) ∧
    extends h h' (addrs t) (addrs t').
Proof.
  revert t h fuel. induction d as [|d IH]; intros t h fuel Hr Hnd Hsh Hnf Hh Hfuel.
  { pose proof (height_pos (erase t)). lia. }
  destruct t as [a lf ks cs].
  inversion Hr as [? ? ? ? n Ha Hn Hlf Hnk Hlk Hlc Htk Hch Hcs]; subst.
  change (Z.to_nat BTREE_ORDER) with 4%nat in *.
  change (Z.to_nat BTREE_MAX_KEYS) with 3%nat in *.
  unfold full in Hnf. rewrite erase_Pt, MAX_val in Hnf. cbn [nkeys] in Hnf.
  assert (length ks < 3)%nat as Hroom.
  { inversion Hsh; subst; rewrite MAX_val in *; lia. }
  cbn [addr].
  destruct (is_leaf n) eqn:Hlf.
  - (* leaf *)
    assert (cs = []) as ->.
    { inversion Hsh as [? ? Hnil|]; subst. by destruct cs. }
    destruct (leaf_insert_run h [] lg a n ks k fuel) as
      (n' & Hrun & Hlf' & Hnk' & Hlk' & Hch' & Htk'); try done; try lia.
    exists (<[a := Onode n']> h), (Pt a true (insert_at (slot ks k) k ks) []).
    split_and!; try done.
    + eapply (rep_node _ _ _ _ _ n'); try done.
      * by rewrite lookup_insert_eq.
      * by rewrite insert_at_length.
      * by rewrite Hch'.
      * by rewrite insert_at_length.
    + intros p o Hp Hnin. rewrite lookup_insert_ne; [done|]. set_solver.
    + intros p Hp. by left.
    + split; [done|]. intros p Hp. left.
      destruct (decide (p = a)) as [->|?]; [by rewrite Hn|].
      by rewrite lookup_insert_ne in Hp.
  - (* internal node *)
    destruct (descend_slot_rep h lg (pred fuel) a ks cs k) as
      (h1 & ks1 & cs1 & j & cj & Hslot & Hr1 & Hnd1 & Hfr1 & Hgr1 & Hcj
       & Hnfj & Hsh1 & Hh1 & Hpure & Hex1); try done; try lia.
    destruct fuel as [|fuel]; [lia|]. cbn [pred] in Hslot.
    inversion Hr1 as [? ? ? ? P1 _ HP1 ? ? ? ? ? ? ?]; subst.
    destruct (rep_child_ptr h1 a _ ks1 cs1 P1 j cj HP1 Hr1 Hcj) as [Hpj Hrj].
    rewrite erase_Pt in Hsh1. inversion Hsh1 as [|? ? ? ? Hshc1]; subst.
    specialize (Hh1 d Hh). rewrite erase_Pt in Hh1. apply height_le in Hh1.
    destruct (IH cj h1 fuel) as
      (h2 & cj' & Hrun & Hr2 & Ha2 & He2 & Hnd2 & Hfr2 & Hgr2 & Hex2); try done.
    { by eapply NoDup_addrs_child. }
    { eapply Forall_lookup_1 in Hshc1; [done|]. by rewrite list_lookup_fmap, Hcj. }
    { eapply Forall_lookup_1 in Hh1; [done|]. by rewrite list_lookup_fmap, Hcj. }
    { lia. }
    destruct (descend_rep h1 h2 a ks1 cs1 j cj cj') as (Hr3 & Hnd3 & Hfr3 & Hgr3);
      try done.
    exists h2, (Pt a false ks1 (<[j := cj']> cs1)). split_and!; try done.
    + cbn [btree_insert_nonfull].
      eapply bind_Ok; [by eapply get_num_keys_Ok|].
      eapply bind_Ok; [by eapply get_is_leaf_Ok|].
      rewrite Hlf, Hnk.
      eapply bind_Ok; [exact Hslot|].
      eapply bind_Ok.
      { eapply get_children_Ok; [done | done | lia | by rewrite Nat2Z.id]. }
      exact Hrun.
    + rewrite Hpure, !erase_Pt. f_equal.
      rewrite list_fmap_insert, He2.
      symmetry. apply (alter_as_insert (λ b, insert_nonfull d b k)).
      by rewrite list_lookup_fmap, Hcj.
    + eapply frame_trans; done.
    + eapply grown_trans; done.
    + eapply extends_trans; [done|]. by eapply descend_extends.
Qed.

End insert_rep.

Section tree_ops.

Implicit Types (h : gmap nat object) (t c : ptree).

Lemma rep_addr_nonnull h t : rep h t → addr t ≠ NULL.
Proof. by inversion 1. Qed.

Lemma handle_not_node h t tree r :
  rep h t → h !! tree = Some (Oroot r) → tree ∉ addrs t.
Proof.
  intros Hr Ht Hin. destruct (rep_lookup h t tree Hr Hin) as [n Hn].
  by rewrite Hn in Ht.
Qed.

(** [btree_search] below a represented node computes [search]. *)
Lemma search_while_refines d t h pl lg k fuel :
  rep h t → shape (erase t) → (height (erase t) ≤ d)%nat →
  (d + 4 ≤ fuel)%nat →
  search_while fuel (addr t) k (Build_mem h pl lg)
  = Ok (search d (erase t) k) (Build_mem h pl lg).
Proof.
  revert t fuel. induction d as [|d IH]; intros t fuel Hr Hsh Hh Hfuel.
  { pose proof (height_pos (erase t)). lia. }
  destruct t as [a lf ks cs].
  inversion Hr as [? ? ? ? n Ha Hn Hlf Hnk Hlk Hlc Htk Hch Hcs]; subst.
  change (Z.to_nat BTREE_MAX_KEYS) with 3%nat in *.
  destruct fuel as [|fuel]; [lia|].
  rewrite erase_Pt in *. cbn [search_while search addr nkeys leaf kids].
  eapply bind_Ok.
  { apply (search_for_run h pl lg a n ks); try done. lia. }
  destruct (search_slot ks k) as [i|] eqn:Hi; [|done]. cbn [fmap option_fmap option_map].
  eapply bind_Ok; [by eapply get_is_leaf_Ok|].
  destruct (is_leaf n) eqn:Hleaf; [done|].
  apply search_slot_stop in Hi as (Hi & _ & _).
  inversion Hsh as [|? ? ? Hlcs Hshc]; subst. rewrite length_fmap in Hlcs.
  destruct (lookup_lt_is_Some_2 cs i) as [c Hc]; [lia|].
  destruct (rep_child_ptr h a _ ks cs n i c Hn Hr Hc) as [Hci Hrc].
  eapply bind_Ok.
  { eapply get_children_Ok; [done | done | lia | by rewrite Nat2Z.id]. }
  rewrite list_lookup_fmap, Hc. cbn [fmap option_fmap option_map].
  apply IH; [done| | |lia].
  - eapply Forall_lookup_1 in Hshc; [done|]. by rewrite list_lookup_fmap, Hc.
  - apply height_le in Hh. eapply Forall_lookup_1 in Hh; [done|].
    by rewrite list_lookup_fmap, Hc.
Qed.

Lemma btree_search_refines d t h pl lg tree k fuel :
  tree_at (Build_mem h pl lg) tree t →
  shape (erase t) → (height (erase t) ≤ d)%nat → (d + 4 ≤ fuel)%nat →
  btree_search fuel tree k (Build_mem h pl lg)
  = Ok (search d (erase t) k) (Build_mem h pl lg).
Proof.
  intros (Ht0 & Ht & Hr & _) Hsh Hh Hfuel. simpl in *.
  unfold btree_search. rewrite decide_False by done.
  eapply bind_Ok; [by eapply get_root_Ok|]. cbn [root].
  rewrite decide_False by (by eapply rep_addr_nonnull).
  by apply search_while_refines.
Qed.

(** [btree_insert] computes [insert] on the tree of the handle. *)
Lemma btree_insert_run d t h lg tree k fuel :
  tree_at (Build_mem h [] lg) tree t →
  shape (erase t) → (height (erase t) ≤ d)%nat → (d + 6 ≤ fuel)%nat →
  ∃ h' t',
    btree_insert fuel tree k (Build_mem h [] lg)
    = Ok tt (Build_mem h' [] lg) ∧
    tree_at (Build_mem h' [] lg) tree t' ∧
    erase t' = insert (S d) (erase t) k ∧
    frame h h' (tree :: addrs t) ∧
    grown h (addrs t') (addrs t) ∧
    extends h h' (addrs t) (addrs t').
Proof.
  intros (Ht0 & Ht & Hr & Hnd) Hsh Hh Hfuel. simpl in *.
  pose proof (rep_addr_nonnull _ _ Hr) as Hr0.
  pose proof (handle_not_node _ _ _ _ Hr Ht) as Htn.
  destruct t as [a lf ks cs].
  inversion Hr as [? ? ? ? n Ha Hn Hlf Hnk Hlk Hlc Htk Hch Hcs]; subst.
  change (Z.to_nat BTREE_ORDER) with 4%nat in *.
  change (Z.to_nat BTREE_MAX_KEYS) with 3%nat in *.
  cbn [addr] in *.
  unfold btree_insert, insert. rewrite decide_False by done.
  destruct (decide (full (erase (Pt a (is_leaf n) ks cs)))) as [Hf|Hf].
  - (* the root is full: grow *)
    assert (length ks = 3%nat) as Hl3 by (by rewrite erase_Pt in Hf).
    destruct (kzalloc_Ok h [] lg (Onode zero_node)) as (q & Hq & Hqf & Hk);
      [done|].
    assert (q ≠ a) as Hqa by congruence.
    assert (q ≠ tree) as Hqt by congruence.
    set (N0 := Build_node false 0 [0; 0; 0]%N [a; NULL; NULL; NULL]).
    set (h0 := <[q := Onode N0]> h).
    set (t := Pt a (is_leaf n) ks cs) in *.
    assert (q ∉ addrs t) as Hqn.
    { intros Hin. destruct (rep_lookup h t q Hr Hin) as [? Hx].
      by rewrite Hx in Hqf. }
    assert (frame h h0 []) as Hfr0.
    { intros p o Hp _. unfold h0. rewrite lookup_insert_ne; [done|].
      intros ->. by rewrite Hqf in Hp. }
    assert (rep h0 (Pt q false [] [t])) as Hr0'.
    { eapply (rep_node _ _ _ _ _ N0); try done.
      - unfold h0. by rewrite lookup_insert_eq.
      - constructor; [|done]. eapply rep_frame; [done | done |].
        intros p _. apply not_elem_of_nil. }
    assert (NoDup (addrs (Pt q false [] [t]))) as Hnd0.
    { rewrite addrs_Pt. simpl. rewrite app_nil_r.
      apply NoDup_cons. by split. }
    assert (shape (erase (Pt q false [] [t]))) as Hsh0.
    { rewrite erase_Pt. constructor; [rewrite MAX_val; simpl; lia | done |].
      by repeat constructor. }
    assert (height (erase (Pt q false [] [t])) ≤ S d)%nat as Hh0.
    { rewrite erase_Pt. apply height_le. by repeat constructor. }
    destruct (split_rep h0 lg fuel q [] [t] 0 t) as
      (h1 & t1 & Hsplit & Hr1 & Ha1 & He1 & Hnd1 & Hfr1 & Hgr1 & Hex1);
      try done; [simpl; lia | lia |].
    assert (shape (erase t1) ∧ ¬ full (erase t1) ∧ (height (erase t1) ≤ S d)%nat)
      as (Hsh1 & Hnf1 & Hh1).
    { rewrite He1, erase_Pt. change (erase <$> [t]) with [erase t].
      destruct (split_child_facts d [] [erase t] 0 (erase t)) as
        (m & l & r & cs' & -> & _ & ? & ? & _);
        [exact Hsh0 | rewrite MAX_val; simpl; lia | exact Hh0 | done | done |].
      split_and!; [done| |done]. unfold full. rewrite MAX_val. simpl. lia. }
    destruct (insert_nonfull_refines (S d) t1 h1 k fuel lg) as
      (h2 & t2 & Hrun & Hr2 & Ha2 & He2 & Hnd2 & Hfr2 & Hgr2 & Hex2);
      try done; try lia.
    assert (h1 !! tree = Some (Oroot (Build_root a))) as Ht1.
    { apply Hfr1.
      - unfold h0. by rewrite lookup_insert_ne.
      - rewrite addrs_Pt. simpl. rewrite app_nil_r.
        apply not_elem_of_cons. split; [done|exact Htn]. }
    assert (h2 !! tree = Some (Oroot (Build_root a))) as Ht2.
    { apply Hfr2; [done|]. by eapply handle_not_node. }
    exists (<[tree := Oroot (Build_root q)]> h2), t2. split_and!.
    + eapply bind_Ok; [by eapply get_root_Ok|]. cbn [root].
      rewrite decide_False by done.
      eapply bind_Ok; [by eapply get_num_keys_Ok|].
      rewrite decide_True by (rewrite Hnk, Hl3; done).
      eapply bind_Ok; [exact Hk|].
      rewrite decide_False by done. unfold zero_node. simpl replicate.
      eapply bind_Ok; [solve [run]|].
      eapply bind_Ok; [solve [run]|].
      eapply bind_Ok; [solve [run]|].
      cbn [is_leaf num_keys keys children].
      change (<[Z.to_nat 0:=a]> [NULL; NULL; NULL; NULL]) with [a; NULL; NULL; NULL].
      fold N0 h0.
      eapply bind_Ok; [exact Hsplit|].
      rewrite Ha1 in Hrun.
      eapply bind_Ok; [exact Hrun|].
      by eapply set_root_Ok.
    + unfold tree_at. simpl. split_and!; [done| |  |done].
      * rewrite lookup_insert_eq. by rewrite Ha2, Ha1.
      * eapply rep_frame_eq; [done|]. intros p Hp.
        rewrite lookup_insert_ne; [done|]. intros <-.
        destruct (rep_lookup h2 t2 tree Hr2 Hp) as [? Hx].
        by rewrite Hx in Ht2.
    + by rewrite He2, He1, erase_Pt.
    + assert (addrs (Pt q false [] [t]) = q :: addrs t) as Eq.
      { rewrite addrs_Pt. simpl. by rewrite app_nil_r. }
      rewrite Eq in Hfr1, Hgr1.
      intros p o Hp Hnin. apply not_elem_of_cons in Hnin as [Hpt Hpn].
      assert (p ≠ q) as Hpq by (intros ->; by rewrite Hqf in Hp).
      rewrite lookup_insert_ne by done.
      apply Hfr2.
      * apply Hfr1; [unfold h0; by rewrite lookup_insert_ne|].
        by apply not_elem_of_cons.
      * intros Hin. destruct (Hgr1 p Hin) as [Hin'|Hnone].
        -- by apply elem_of_cons in Hin' as [?|?].
        -- unfold h0 in Hnone. rewrite lookup_insert_ne in Hnone by done.
           by rewrite Hnone in Hp.
    + assert (addrs (Pt q false [] [t]) = q :: addrs t) as Eq.
      { rewrite addrs_Pt. simpl. by rewrite app_nil_r. }
      rewrite Eq in Hfr1, Hgr1.
      intros p Hp.
      destruct (decide (p = q)) as [->|Hpq]; [by right|].
      destruct (Hgr2 p Hp) as [Hin|Hnone].
      * destruct (Hgr1 p Hin) as [Hin'|Hnone].
        -- apply elem_of_cons in Hin' as [?|?]; [done|by left].
        -- right. unfold h0 in Hnone. by rewrite lookup_insert_ne in Hnone.
      * destruct (decide (p ∈ addrs t)) as [?|Hnin]; [by left|]. right.
        destruct (h !! p) as [o|] eqn:Ho; [|done].
        assert (h1 !! p = Some o) as Hx; [|by rewrite Hx in Hnone].
        apply Hfr1; [unfold h0; by rewrite lookup_insert_ne|].
        by apply not_elem_of_cons.
    + assert (addrs (Pt q false [] [t]) = q :: addrs t) as Eq.
      { rewrite addrs_Pt. simpl. by rewrite app_nil_r. }
      rewrite Eq in Hex1.
      pose proof (extends_trans _ _ _ _ _ _ Hex1 Hex2) as [K T]. split.
      * intros p Hp. apply K. by apply elem_of_cons; right.
      * intros p Hp.
        destruct (decide (p = tree)) as [->|Hpt]; [left; by rewrite Ht|].
        rewrite lookup_insert_ne in Hp by done.
        destruct (T p Hp) as [Hp0|?]; [|by right].
        unfold h0 in Hp0.
        destruct (decide (p = q)) as [->|Hpq].
        -- right. apply K. by apply elem_of_cons; left.
        -- left. by rewrite lookup_insert_ne in Hp0.
  - (* the root has room *)
    assert (length ks ≠ 3%nat) as Hl3 by (by rewrite erase_Pt in Hf).
    destruct (insert_nonfull_refines (S d) (Pt a (is_leaf n) ks cs) h k fuel lg) as
      (h2 & t2 & Hrun & Hr2 & Ha2 & He2 & Hnd2 & Hfr2 & Hgr2 & Hex2);
      try done; try lia.
    exists h2, t2. split_and!.
    + eapply bind_Ok; [by eapply get_root_Ok|]. cbn [root].
      rewrite decide_False by done.
      eapply bind_Ok; [by eapply get_num_keys_Ok|].
      rewrite decide_False.
      2:{ rewrite Hnk. change BTREE_MAX_KEYS with 3. lia. }
      exact Hrun.
    + unfold tree_at. simpl. split_and!; [done| |done|done].
      rewrite Ha2. by apply Hfr2.
    + exact He2.
    + intros p o Hp Hnin. apply Hfr2; [done|].
      by apply not_elem_of_cons in Hnin as [_ ?].
    + exact Hgr2.
    + exact Hex2.
Qed.

Lemma btree_insert_refines d t h lg tree k fuel :
  tree_at (Build_mem h [] lg) tree t →
  shape (erase t) → (height (erase t) ≤ d)%nat → (d + 6 ≤ fuel)%nat →
  ∃ h' t',
    btree_insert fuel tree k (Build_mem h [] lg)
    = Ok tt (Build_mem h' [] lg) ∧
    tree_at (Build_mem h' [] lg) tree t' ∧
    erase t' = insert (S d) (erase t) k.
Proof.
  intros Ht Hsh Hh Hfuel.
  destruct (btree_insert_run d t h lg tree k fuel Ht Hsh Hh Hfuel)
    as (h' & t' & Hrun & Ht' & He & _).
  by exists h', t'.
Qed.

End tree_ops.

(** ** Trees built by insertions *)

Section build_facts.

Lemma insert_all_snoc fuel tree ks k m :
  insert_all fuel tree (ks ++ [k]) m
  = match insert_all fuel tree ks m with
    | Ok _ m' => btree_insert fuel tree k m'
    | Fault f => Fault f
    | OutOfFuel => OutOfFuel
    end.
Proof.
  revert m. induction ks as [|x ks IH]; intros m; simpl.
  - unfold bind, ret. by destruct (btree_insert fuel tree k m) as [[] ?| |].
  - unfold bind at 1 2. destruct (btree_insert fuel tree x m); [apply IH|done..].
Qed.

Lemma build_snoc fuel ks k tree m :
  build fuel ks empty_mem = Ok tree m →
  build fuel (ks ++ [k]) empty_mem
  = match btree_insert fuel tree k m with
    | Ok _ m' => Ok tree m'
    | Fault f => Fault f
    | OutOfFuel => OutOfFuel
    end.
Proof.
  unfold build, bind. destruct (btree_init empty_mem) as [tr m0| |]; [|done..].
  rewrite insert_all_snoc.
  destruct (insert_all fuel tr ks m0) as [[] m1| |]; [|done..].
  unfold ret. intros [= -> ->]. by destruct (btree_insert fuel tree k m).
Qed.

Lemma build_nil fuel :
  ∃ tree m t, build fuel [] empty_mem = Ok tree m ∧ built [] tree m t.
Proof.
  exists 1%nat,
    (Build_mem (<[2%nat := Onode (Build_node true 0 [0;0;0]%N [NULL;NULL;NULL;NULL])]>
                 (<[1%nat := Oroot (Build_root 2)]> ∅)) [] []),
    (Pt 2 true [] []).
  split; [by vm_compute|].
  split; simpl; try done.
  - unfold tree_at. simpl. split_and!; try done.
    + eapply (rep_node _ _ _ _ _ (Build_node true 0 [0;0;0]%N [NULL;NULL;NULL;NULL]));
        try done.
    + apply NoDup_singleton.
  - constructor. rewrite MAX_val. simpl. lia.
  - constructor.
Qed.

Lemma build_spec ks fuel :
  (length ks + 7 ≤ fuel)%nat →
  ∃ tree m t, build fuel ks empty_mem = Ok tree m ∧ built ks tree m t.
Proof.
  revert fuel. induction ks as [|k ks IH] using rev_ind; intros fuel Hfuel.
  { apply build_nil. }
  rewrite length_app in Hfuel. simpl in Hfuel.
  destruct (IH fuel) as (tree & m & t & Hb & [Ht Hp Hsh Hh Hso Hk Hm]); [lia|].
  destruct m as [h pl lg]. simpl in Hp. subst pl.
  destruct (btree_insert_refines (S (length ks)) t h lg tree k fuel)
    as (h' & t' & Hrun & Ht' & He); [done | done | done | lia |].
  destruct (insert_facts (S (length ks)) (erase t) k Hsh Hh) as (Hsh' & Hh' & Hins & Hm').
  rewrite <-He in Hsh', Hh', Hins, Hm'.
  exists tree, (Build_mem h' [] lg), t'. split.
  - rewrite (build_snoc _ _ _ _ _ Hb), Hrun. done.
  - split; try done.
    + rewrite length_app. simpl. lia.
    + by eapply inserted_sorted.
    + rewrite (inserted_perm _ _ _ Hins), Hk. by rewrite Permutation_cons_append.
    + by apply Hm'.
Qed.

Lemma built_search ks tree m t k fuel :
  built ks tree m t → (length ks + 5 ≤ fuel)%nat →
  btree_search fuel tree k m = Ok (bool_decide (k ∈ ks)) m.
Proof.
  intros [Ht Hp Hsh Hh Hso Hk Hm] Hfuel. destruct m as [h pl lg].
  rewrite (btree_search_refines (S (length ks)) t); [|done|done|done|lia].
  f_equal. destruct (search (S (length ks)) (erase t) k) eqn:Hs.
  - symmetry. apply bool_decide_eq_true. rewrite <-Hk. by eapply search_sound.
  - symmetry. apply bool_decide_eq_false. rewrite <-Hk. intros Hin.
    by rewrite (search_complete _ _ _ Hsh Hso Hh Hin) in Hs.
Qed.

End build_facts.

Section occupancy.

Lemma rep_min_keys h t :
  rep h t → shape (erase t) → min_keys (erase t) →
  (Z.to_nat BTREE_MIN_KEYS ≤ length (nkeys (erase t)))%nat →
  ∀ p n, p ∈ addrs t → h !! p = Some (Onode n) →
         BTREE_MIN_KEYS ≤ num_keys n ≤ BTREE_MAX_KEYS.
Proof.
  induction t as [a lf ks cs IH] using ptree_ind'.
  intros Hr Hsh Hm Hroot p n Hp Hn.
  inversion Hr as [? ? ? ? n' ? Hn' ? Hnk ? ? ? ? Hcs]; subst.
  rewrite erase_Pt in *. cbn [nkeys] in Hroot.
  rewrite addrs_Pt in Hp. apply elem_of_cons in Hp as [->|Hp].
  - simplify_eq. rewrite Hnk.
    assert (length ks ≤ MAX)%nat by (by inversion Hsh).
    change BTREE_MIN_KEYS with 1 in *. change BTREE_MAX_KEYS with 3.
    rewrite MAX_val in *. lia.
  - apply list_elem_of_join in Hp as (l & Hp & Hl).
    apply list_elem_of_fmap in Hl as (c & -> & Hc).
    apply list_elem_of_lookup in Hc as [j Hj].
    eapply Forall_lookup_1 in IH; [|done]. apply IH with (p := p); try done.
    + by eapply Forall_lookup_1 in Hcs.
    + inversion Hsh as [|? ? ? ? Hshc]; subst; [by destruct cs|].
      eapply Forall_lookup_1 in Hshc; [done|]. by rewrite list_lookup_fmap, Hj.
    + inversion Hm as [? Hmc]; subst. cbn [kids] in Hmc.
      eapply Forall_lookup_1 in Hmc; [|by rewrite list_lookup_fmap, Hj].
      by destruct Hmc.
    + inversion Hm as [? Hmc]; subst. cbn [kids] in Hmc.
      eapply Forall_lookup_1 in Hmc; [|by rewrite list_lookup_fmap, Hj].
      by destruct Hmc.
Qed.

Lemma rep_occupancy h t p :
  rep h t → shape (erase t) → min_keys (erase t) → p ∈ addrs t →
  ∃ n, h !! p = Some (Onode n) ∧
       0 ≤ num_keys n ≤ BTREE_MAX_KEYS ∧
       (p ≠ addr t → BTREE_MIN_KEYS ≤ num_keys n).
Proof.
  intros Hr Hsh Hm Hp. destruct (rep_lookup h t p Hr Hp) as [n Hn].
  exists n. split; [done|]. destruct t as [a lf ks cs].
  inversion Hr as [? ? ? ? n' ? Hn' ? Hnk ? ? ? ? Hcs]; subst.
  rewrite addrs_Pt in Hp. apply elem_of_cons in Hp as [->|Hp].
  - simplify_eq. cbn [addr]. split; [|done]. rewrite Hnk.
    assert (length ks ≤ MAX)%nat by (by inversion Hsh).
    change BTREE_MAX_KEYS with 3. rewrite MAX_val in *. lia.
  - apply list_elem_of_join in Hp as (l & Hp & Hl).
    apply list_elem_of_fmap in Hl as (c & -> & Hc).
    apply list_elem_of_lookup in Hc as [j Hj].
    rewrite erase_Pt in *.
    assert (BTREE_MIN_KEYS ≤ num_keys n ≤ BTREE_MAX_KEYS) as Hb.
    { apply (rep_min_keys h c) with (p := p); try done.
      - by eapply Forall_lookup_1 in Hcs.
      - inversion Hsh as [|? ? ? ? Hshc]; subst; [by destruct cs|].
        eapply Forall_lookup_1 in Hshc; [done|]. by rewrite list_lookup_fmap, Hj.
      - inversion Hm as [? Hmc]; subst. cbn [kids] in Hmc.
        eapply Forall_lookup_1 in Hmc; [|by rewrite list_lookup_fmap, Hj].
        by destruct Hmc.
      - inversion Hm as [? Hmc]; subst. cbn [kids] in Hmc.
        eapply Forall_lookup_1 in Hmc; [|by rewrite list_lookup_fmap, Hj].
        by destruct Hmc. }
    change BTREE_MIN_KEYS with 1 in *. lia.
Qed.

End occupancy.

(** ** The properties of the operations *)

(** C1 (search correctness): after the keys [ks] were inserted into a new
    tree, every allocation succeeding, [btree_search] returns true for
    each key of [ks] and false for any other key, whatever fuel beyond
    [length ks + 7] the run is given; it leaves the state as it was. *)
Theorem search_correctness (ks : list N) (k : N) (extra : nat) :
  ∃ tree m,
    build (length ks + 7 + extra) ks empty_mem = Ok tree m ∧
    btree_search (length ks + 7 + extra) tree k m
    = Ok (bool_decide (k ∈ ks)) m.
Proof.
  destruct (build_spec ks (length ks + 7 + extra)) as (tree & m & t & Hb & Hbuilt);
    [lia|].
  exists tree, m. split; [done|]. eapply built_search; [done|lia].
Qed.

(** C2 (order invariant, as amended): after any sequence of insertions
    into a new tree, in every node each key of [children[i]] is at most
    [keys[i]] and each key of [children[i+1]] is at least [keys[i]]; when
    the inserted keys are pairwise different the first bound is strict.
    The tree [t] is the whole tree in the heap: by [shape] each of its
    leaves is flagged a leaf and each internal node is listed with all
    its [num_keys + 1] children. *)
Theorem order_invariant (ks : list N) (extra : nat) :
  ∃ tree m t,
    build (length ks + 7 + extra) ks empty_mem = Ok tree m ∧
    tree_at m tree t ∧ shape (erase t) ∧
    order_inv N.le (erase t) ∧
    (NoDup ks → order_inv N.lt (erase t)).
Proof.
  destruct (build_spec ks (length ks + 7 + extra))
    as (tree & m & t & Hb & [Ht Hp Hsh Hh Hso Hk Hm]); [lia|].
  exists tree, m, t. split_and!; [done..| |].
  - by apply (sorted_order_inv false).
  - intros Hnd. apply (sorted_order_inv true); [done..|].
    intros _. by rewrite Hk.
Qed.

(** C2, as stated, fails: inserting 10, 20, 30, 40, 50 and 40 again
    leaves the key 40 in [children[1]] of the root, whose [keys[1]] is
    40. *)
Lemma order_invariant_strict_fails :
  ∃ tree m t,
    build 13 [10; 20; 30; 40; 50; 40]%N empty_mem = Ok tree m ∧
    tree_at m tree t ∧
    erase t = Bt false [20; 40]%N
                 [Bt true [10]%N []; Bt true [30; 40]%N []; Bt true [50]%N []] ∧
    ¬ order_inv N.lt (erase t).
Proof.
  eexists _, _,
    (Pt 3 false [20; 40]%N
        [Pt 2 true [10]%N []; Pt 4 true [30; 40]%N []; Pt 5 true [50]%N []]).
  split; [vm_compute; reflexivity|].
  split_and!.
  - unfold tree_at. split_and!; [done | by vm_compute | |].
    + repeat (econstructor; try (by vm_compute)).
    + apply (bool_decide_unpack _). by vm_compute.
  - reflexivity.
  - intros Hinv. inversion Hinv as [? Hat _]; subst.
    destruct (Hat 1%nat 40%N eq_refl) as [Hlt _].
    specialize (Hlt (Bt true [30; 40]%N []) 40%N eq_refl).
    assert (40 < 40)%N; [|lia]. apply Hlt. simpl. set_solver.
Qed.

(** C3 (which half receives the key, as amended): when the child found
    by the scan is full and is split, the slot recursed into is one to the
    right of the scanned slot exactly when the key is strictly greater
    than the promoted median; a key equal to the median goes into the
    left half. *)
Theorem descend_slot_after_split
    (h : gmap nat object) (pl : list bool) (lg : list (loglevel * string))
    (fuel node c : nat) (P C : btree_node) (k : N) :
  node ≠ NULL → h !! node = Some (Onode P) →
  length (keys P) = 3%nat → length (children P) = 4%nat →
  0 ≤ num_keys P < BTREE_MAX_KEYS →
  children P !! slot (take (Z.to_nat (num_keys P)) (keys P)) k = Some c →
  c ≠ NULL → c ≠ node → h !! c = Some (Onode C) →
  num_keys C = BTREE_MAX_KEYS →
  length (keys C) = 3%nat → length (children C) = 4%nat →
  head pl ≠ Some true → (5 ≤ fuel)%nat →
  ∃ median m',
    keys C !! Z.to_nat (Z.quot BTREE_MAX_KEYS 2) = Some median ∧
    descend_slot fuel node k (num_keys P) (Build_mem h pl lg)
    = Ok (let i := Z.of_nat (slot (take (Z.to_nat (num_keys P)) (keys P)) k) in
          if decide (k > median)%N then i + 1 else i) m' ∧
    get_keys node (Z.of_nat (slot (take (Z.to_nat (num_keys P)) (keys P)) k)) m'
    = Ok median m'.
Proof.
  intros Hn HP HlkP HlcP HnkP Hc Hc0 Hcn HC HnkC HlkC HlcC Hpl Hfuel.
  change BTREE_MAX_KEYS with 3 in *.
  set (ks := take (Z.to_nat (num_keys P)) (keys P)) in *.
  assert (length ks = Z.to_nat (num_keys P)) as Hlen.
  { unfold ks. rewrite length_take. lia. }
  pose proof (slot_le ks k) as Hi. set (i := slot ks k) in *.
  destruct (split_child_run h pl lg fuel node (Z.of_nat i) P c C)
    as (q & P' & Q & Hq & Hqf & Hrun & _ & _ & _ & _ & _ & _
        & _ & HPn & HPlk & _ & HPk & _); try done; try lia.
  { change BTREE_MAX_KEYS with 3. lia. }
  { by rewrite Nat2Z.id. }
  destruct (keys C) as [|x [|median [|z [|]]]] eqn:HkC; simplify_eq/=.
  assert (keys P' !! i = Some median) as Hmed.
  { rewrite <-(lookup_take_lt _ (Z.to_nat (num_keys P + 1))) by lia.
    rewrite HPk, Nat2Z.id. fold ks. apply insert_at_lookup_eq. lia. }
  eexists median, _. split; [done|]. split.
  - unfold descend_slot.
    eapply bind_Ok.
    { apply (child_scan_run h pl lg node P ks); try done; try lia.
      by rewrite Hlen. }
    eapply bind_Ok.
    { eapply get_children_Ok; [done | done | lia | by rewrite Nat2Z.id]. }
    eapply bind_Ok; [by eapply get_num_keys_Ok|].
    rewrite decide_True by done.
    eapply bind_Ok; [exact Hrun|].
    eapply bind_Ok.
    { eapply get_keys_Ok; [done | by rewrite lookup_insert_eq | lia
                          | by rewrite Nat2Z.id]. }
    cbv zeta. by case_decide.
  - eapply get_keys_Ok; [done | by rewrite lookup_insert_eq | lia
                        | by rewrite Nat2Z.id].
Qed.

Lemma example_heap_built :
  build 12 [10; 20; 30; 40; 50]%N empty_mem
  = Ok 1%nat (Build_mem example_heap [] []).
Proof. by vm_compute. Qed.

Lemma descend_slot_after_split_witness :
  ∃ median m',
    [30; 40; 50]%N !! 1%nat = Some median ∧
    descend_slot 5 3 40%N 1 (Build_mem example_heap [] [])
    = Ok (if decide (40 > median)%N then 1 + 1 else 1) m' ∧
    get_keys 3 1 m' = Ok median m'.
Proof.
  exact (descend_slot_after_split example_heap [] [] 5 3 4
           (Build_node false 1 [20; 0; 0]%N [2%nat; 4%nat; NULL; NULL])
           (Build_node true 3 [30; 40; 50]%N [NULL; NULL; NULL; NULL]) 40%N
           ltac:(done) ltac:(done) ltac:(done) ltac:(done) ltac:(done)
           ltac:(done) ltac:(done) ltac:(done) ltac:(done) ltac:(done)
           ltac:(done) ltac:(done) ltac:(done) ltac:(lia)).
Defined.

(** C3, as stated, fails: the scan for the key 40 stops at slot 1, whose
    child [30; 40; 50] is full; the split promotes the median 40, which
    is less than or equal to the key, and the slot stays 1. *)
Lemma descend_slot_equal_median_not_shifted :
  ∃ tree m r m',
    build 12 [10; 20; 30; 40; 50]%N empty_mem = Ok tree m ∧
    get_root tree m = Ok r m ∧
    child_scan 12 r 40%N 1 m = Ok 1 m ∧
    descend_slot 12 r 40%N 1 m = Ok 1 m' ∧
    get_keys r 1 m' = Ok 40%N m' ∧ (40 ≤ 40)%N.
Proof.
  eexists _, _, _, _. split; [by vm_compute|].
  split; [by vm_compute|]. split; [by vm_compute|].
  split; [by vm_compute|]. split; [by vm_compute|]. lia.
Qed.

Lemma full_root_heap_built :
  build 10 [10; 20; 30]%N empty_mem = Ok 1%nat (Build_mem full_root_heap [] []).
Proof. by vm_compute. Qed.

(** C4 (a failed sibling allocation must abort the insert): the code does
    not.  [btree_split_child] returns without a word when its allocation
    fails, and [btree_insert_nonfull] goes on.  In the example tree, with
    the allocation failing, the insert of 60 reads the unset [keys[1]] of
    the root, moves to [children[2]] and goes through this NULL pointer.
    On the full single-leaf tree [10; 20; 30], with the new root allocated
    and both sibling allocations failing, the insert of 0 goes on into the
    full leaf and writes [keys[3]], past the end of the array.  When only
    the first sibling allocation fails the split is tried again and the
    tree is changed. *)
Theorem split_alloc_failure_not_propagated :
  let ex := Build_mem example_heap [] [] in
  let m := Build_mem full_root_heap [] [] in
  build 12 [10; 20; 30; 40; 50]%N empty_mem = Ok 1%nat ex ∧
  btree_split_child 10 3 1 (with_fails [true] ex) = Ok tt ex ∧
  btree_insert 10 1 60%N (with_fails [true] ex) = Fault NullDeref ∧
  build 10 [10; 20; 30]%N empty_mem = Ok 1%nat m ∧
  btree_insert 10 1 0%N (with_fails [false; true; true] m) = Fault OutOfBounds ∧
  ∃ m', btree_insert 10 1 40%N (with_fails [false; true] m) = Ok tt m' ∧
        heap m' ≠ heap m.
Proof.
  cbv zeta. split; [by vm_compute|]. split; [by vm_compute|].
  split; [by vm_compute|]. split; [by vm_compute|]. split; [by vm_compute|].
  eexists. split; [by vm_compute|].
  intros Heq. apply (f_equal (λ h, h !! 1%nat)) in Heq. by vm_compute in Heq.
Qed.

(** C5 (a failed allocation of the new root, as amended): when the root
    is full and the allocation of the new root fails, [btree_insert]
    returns with the heap exactly as it was; it returns no value, so the
    caller is told nothing. *)
Theorem insert_new_root_alloc_failure
    (h : gmap nat object) (rest : list bool) (lg : list (loglevel * string))
    (fuel tree r : nat) (n : btree_node) (k : N) :
  tree ≠ NULL → h !! tree = Some (Oroot (Build_root r)) →
  r ≠ NULL → h !! r = Some (Onode n) → num_keys n = BTREE_MAX_KEYS →
  btree_insert fuel tree k (Build_mem h (true :: rest) lg)
  = Ok tt (Build_mem h rest lg).
Proof.
  intros Ht0 Ht Hr0 Hr Hn. unfold btree_insert.
  rewrite decide_False by done.
  eapply bind_Ok; [by eapply get_root_Ok|]. cbn [root].
  rewrite decide_False by done.
  eapply bind_Ok; [by eapply get_num_keys_Ok|].
  rewrite decide_True by done.
  eapply bind_Ok; [reflexivity|]. by rewrite decide_True.
Qed.

Lemma insert_new_root_alloc_failure_witness :
  btree_insert 10 1 40%N (Build_mem full_root_heap [true] [])
  = Ok tt (Build_mem full_root_heap [] []).
Proof.
  exact (insert_new_root_alloc_failure full_root_heap [] [] 10 1 2
           (Build_node true 3 [10; 20; 30]%N [NULL; NULL; NULL; NULL]) 40%N
           ltac:(done) ltac:(done) ltac:(done) ltac:(done) ltac:(done)).
Defined.

(** C5, as stated, fails: on the full single-leaf tree the insert whose
    new-root allocation fails hands its caller the same thing as the
    insert that succeeds, though only the second one changes the heap. *)
Lemma insert_failure_not_reported :
  ∃ tree m,
    build 10 [10; 20; 30]%N empty_mem = Ok tree m ∧
    returned (btree_insert 10 tree 40%N (with_fails [true] m)) = Some tt ∧
    returned (btree_insert 10 tree 40%N m) = Some tt ∧
    final (btree_insert 10 tree 40%N (with_fails [true] m)) = Some m ∧
    final (btree_insert 10 tree 40%N m) ≠ Some m.
Proof.
  eexists _, _. split; [by vm_compute|].
  split; [by vm_compute|]. split; [by vm_compute|]. split; [by vm_compute|].
  intros Heq.
  apply (f_equal (λ o, match o with Some m => heap m !! 1%nat | None => None end))
    in Heq.
  by vm_compute in Heq.
Qed.

(** C6 (node split): with [mid = BTREE_MAX_KEYS / 2], splitting the full
    child at [index] of a parent with room allocates a sibling with the
    child's leaf flag that holds the child's keys after position [mid]
    (and, for an internal child, its children after position [mid]); the
    child keeps its arrays and has [mid] keys; the parent gets the median
    at [keys[index]] and the sibling at [children[index + 1]], the later
    keys and children moved one slot right, and one more key.  Nothing
    else in the heap changes. *)
Theorem split_child_spec
    (h : gmap nat object) (pl : list bool) (lg : list (loglevel * string))
    (fuel parent c : nat) (index : Z) (P C : btree_node) :
  parent ≠ NULL → h !! parent = Some (Onode P) →
  length (keys P) = 3%nat → length (children P) = 4%nat →
  0 ≤ index ≤ num_keys P → num_keys P < BTREE_MAX_KEYS →
  children P !! Z.to_nat index = Some c →
  c ≠ NULL → c ≠ parent → h !! c = Some (Onode C) →
  num_keys C = BTREE_MAX_KEYS →
  length (keys C) = 3%nat → length (children C) = 4%nat →
  head pl ≠ Some true → (5 ≤ fuel)%nat →
  let mid := Z.quot BTREE_MAX_KEYS 2 in
  ∃ q P' Q,
    q ≠ NULL ∧ h !! q = None ∧
    btree_split_child fuel parent index (Build_mem h pl lg)
    = Ok tt (Build_mem
        (<[parent := Onode P']>
           (<[c := Onode (Build_node (is_leaf C) mid (keys C) (children C))]>
              (<[q := Onode Q]> h)))
        (tail pl) lg) ∧
    is_leaf Q = is_leaf C ∧ num_keys Q = BTREE_MAX_KEYS - mid - 1 ∧
    length (keys Q) = 3%nat ∧ length (children Q) = 4%nat ∧
    take (Z.to_nat (num_keys Q)) (keys Q) = drop (Z.to_nat (mid + 1)) (keys C) ∧
    (is_leaf C = false →
     take (Z.to_nat (num_keys Q + 1)) (children Q)
     = drop (Z.to_nat (mid + 1)) (children C)) ∧
    is_leaf P' = is_leaf P ∧ num_keys P' = num_keys P + 1 ∧
    length (keys P') = 3%nat ∧ length (children P') = 4%nat ∧
    take (Z.to_nat (num_keys P + 1)) (keys P')
    = insert_at (Z.to_nat index) (default 0%N (keys C !! Z.to_nat mid))
                (take (Z.to_nat (num_keys P)) (keys P)) ∧
    take (Z.to_nat (num_keys P + 2)) (children P')
    = insert_at (Z.to_nat (index + 1)) q
                (take (Z.to_nat (num_keys P + 1)) (children P)).
Proof.
  intros ??????????????? mid.
  destruct (split_child_run h pl lg fuel parent index P c C)
    as (q & P' & Q & Hq & Hqf & Hrun & HQl & HQn & HQlk & HQlc & HQk & HQc
        & HPl & HPn & HPlk & HPlc & HPk & HPc); try done.
  exists q, P', Q. subst mid. change BTREE_MAX_KEYS with 3 in *.
  change (Z.quot 3 2) with 1. rewrite HQn. by split_and!.
Qed.

Lemma split_child_spec_witness :
  ∃ q P' Q,
    q ≠ NULL ∧ example_heap !! q = None ∧
    btree_split_child 5 3 1 (Build_mem example_heap [] [])
    = Ok tt (Build_mem
        (<[3%nat := Onode P']>
           (<[4%nat := Onode (Build_node true 1 [30; 40; 50]%N
                                [NULL; NULL; NULL; NULL])]>
              (<[q := Onode Q]> example_heap)))
        [] []) ∧
    is_leaf Q = true ∧ num_keys Q = 1 ∧
    length (keys Q) = 3%nat ∧ length (children Q) = 4%nat ∧
    take (Z.to_nat (num_keys Q)) (keys Q) = [50]%N ∧
    (true = false →
     take (Z.to_nat (num_keys Q + 1)) (children Q) = [NULL; NULL]) ∧
    is_leaf P' = false ∧ num_keys P' = 2 ∧
    length (keys P') = 3%nat ∧ length (children P') = 4%nat ∧
    take 2 (keys P') = [20; 40]%N ∧
    take 3 (children P') = [2%nat; 4%nat; q].
Proof.
  exact (split_child_spec example_heap [] [] 5 3 4 1
           (Build_node false 1 [20; 0; 0]%N [2%nat; 4%nat; NULL; NULL])
           (Build_node true 3 [30; 40; 50]%N [NULL; NULL; NULL; NULL])
           ltac:(done) ltac:(done) ltac:(done) ltac:(done) ltac:(done)
           ltac:(done) ltac:(done) ltac:(done) ltac:(done) ltac:(done)
           ltac:(done) ltac:(done) ltac:(done) ltac:(done) ltac:(lia)).
Defined.

(** C7 (occupancy): after any sequence of insertions into a new tree
    every node of the tree has between 0 and [BTREE_MAX_KEYS] keys, and
    every node other than the root at least [BTREE_MIN_KEYS = 1].  By
    [shape] the addresses of [t] are those of all nodes reachable from
    the root: no child of an internal node is left out. *)
Theorem occupancy_invariant (ks : list N) (extra : nat) :
  ∃ tree m t,
    build (length ks + 7 + extra) ks empty_mem = Ok tree m ∧
    tree_at m tree t ∧ shape (erase t) ∧
    BTREE_MIN_KEYS = 1 ∧
    ∀ p, p ∈ addrs t →
      ∃ n, heap m !! p = Some (Onode n) ∧
           0 ≤ num_keys n ≤ BTREE_MAX_KEYS ∧
           (p ≠ addr t → BTREE_MIN_KEYS ≤ num_keys n).
Proof.
  destruct (build_spec ks (length ks + 7 + extra))
    as (tree & m & t & Hb & [Ht Hp Hsh Hh Hso Hk Hm]); [lia|].
  exists tree, m, t. split_and!; [done..|].
  intros p Hin. destruct Ht as (_ & _ & Hr & _). by apply rep_occupancy.
Qed.

(** C8 (duplicates): in any state reached by insertions, inserting a key
    twice returns both times, the tree then holds the key two more times
    than before, and [btree_search] finds it.  Both listings are those
    of the whole tree in the heap ([shape]). *)
Theorem duplicate_tolerance (ks : list N) (k : N) (extra : nat) :
  ∃ tree m t m1 m2 t2,
    build (length ks + 9 + extra) ks empty_mem = Ok tree m ∧
    tree_at m tree t ∧ shape (erase t) ∧
    btree_insert (length ks + 9 + extra) tree k m = Ok tt m1 ∧
    btree_insert (length ks + 9 + extra) tree k m1 = Ok tt m2 ∧
    tree_at m2 tree t2 ∧ shape (erase t2) ∧
    inorder (erase t2) ≡ₚ k :: k :: inorder (erase t) ∧
    btree_search (length ks + 9 + extra) tree k m2 = Ok true m2.
Proof.
  set (fuel := (length ks + 9 + extra)%nat).
  destruct (build_spec ks fuel) as (tree & m & t & Hb & Hbuilt); [lia|].
  destruct (build_spec (ks ++ [k]) fuel) as (tree1 & m1 & t1 & Hb1 & Hbuilt1).
  { rewrite length_app. simpl. lia. }
  destruct (build_spec ((ks ++ [k]) ++ [k]) fuel) as (tree2 & m2 & t2 & Hb2 & Hbuilt2).
  { rewrite !length_app. simpl. lia. }
  rewrite (build_snoc _ _ _ _ _ Hb1) in Hb2.
  rewrite (build_snoc _ _ _ _ _ Hb) in Hb1.
  destruct (btree_insert fuel tree k m) as [[] m1'| |] eqn:E1; [|done..].
  injection Hb1 as -> ->.
  destruct (btree_insert fuel tree1 k m1) as [[] m2'| |] eqn:E2; [|done..].
  injection Hb2 as -> ->.
  exists tree2, m, t, m1, m2, t2. split_and!; try done.
  - by destruct Hbuilt.
  - by destruct Hbuilt.
  - by destruct Hbuilt2.
  - by destruct Hbuilt2.
  - destruct Hbuilt as [_ _ _ _ _ Hk _]. destruct Hbuilt2 as [_ _ _ _ _ Hk2 _].
    rewrite Hk, Hk2. rewrite <-!Permutation_cons_append. done.
  - rewrite (built_search _ _ _ _ k fuel Hbuilt2).
    + f_equal. apply bool_decide_eq_true. set_solver.
    + rewrite !length_app. simpl. lia.
Qed.

(** C9 (create): [btree_init] returns [NULL] and leaves the heap as it
    was when the allocation of the handle fails, and also when the
    allocation of the root node fails (the handle is freed again);
    otherwise it returns a new handle whose root is a new leaf node with
    no keys. *)
Theorem btree_init_spec
    (h : gmap nat object) (pl : list bool) (lg : list (loglevel * string)) :
  match pl with
  | true :: rest =>
      btree_init (Build_mem h pl lg) = Ok NULL (Build_mem h rest lg)
  | _ =>
      match tail pl with
      | true :: rest =>
          btree_init (Build_mem h pl lg) = Ok NULL (Build_mem h rest lg)
      | _ =>
          ∃ tree r,
            tree ≠ NULL ∧ r ≠ NULL ∧ tree ≠ r ∧
            h !! tree = None ∧ h !! r = None ∧
            btree_init (Build_mem h pl lg)
            = Ok tree (Build_mem
                (<[r := Onode (Build_node true 0 (keys zero_node)
                                          (children zero_node))]>
                   (<[tree := Oroot (Build_root r)]> h))
                (tail (tail pl)) lg)
      end
  end.
Proof.
  assert (∀ pl', head pl' ≠ Some true → head (tail pl') ≠ Some true →
    ∃ tree r,
      tree ≠ NULL ∧ r ≠ NULL ∧ tree ≠ r ∧ h !! tree = None ∧ h !! r = None ∧
      btree_init (Build_mem h pl' lg)
      = Ok tree (Build_mem
          (<[r := Onode (Build_node true 0 (keys zero_node) (children zero_node))]>
             (<[tree := Oroot (Build_root r)]> h))
          (tail (tail pl')) lg)) as Hok.
  { intros pl' H1 H2.
    destruct (kzalloc_Ok h pl' lg (Oroot zero_root) H1) as (tree & Ht0 & Htf & Hk1).
    destruct (kzalloc_Ok (<[tree := Oroot zero_root]> h) (tail pl') lg
                (Onode zero_node) H2) as (r & Hr0 & Hrf & Hk2).
    assert (tree ≠ r) as Hne.
    { intros ->. by rewrite lookup_insert_eq in Hrf. }
    rewrite lookup_insert_ne in Hrf by done.
    exists tree, r. split_and!; try done.
    unfold btree_init.
    eapply bind_Ok; [exact Hk1|]. rewrite decide_False by done.
    eapply bind_Ok; [exact Hk2|]. rewrite decide_False by done.
    eapply bind_Ok; [solve [run]|].
    eapply bind_Ok; [solve [run]|].
    eapply bind_Ok; [solve [run]|].
    unfold ret. f_equal. f_equal.
    rewrite (insert_insert_ne _ tree r) by done.
    by rewrite insert_insert_eq. }
  destruct pl as [|[] [|[] rest]]; simpl.
  - by apply (Hok []).
  - done.
  - done.
  - done.
  - by apply (Hok [false]).
  - unfold btree_init. eapply bind_Ok; [reflexivity|].
    pose proof (is_fresh ({[NULL]} ∪ dom h)) as Hf.
    set (tree := fresh ({[NULL]} ∪ dom h)) in *.
    rewrite decide_False by set_solver.
    eapply bind_Ok; [reflexivity|]. rewrite decide_True by done.
    unfold kfree, bind, ret, set_heap. simpl.
    rewrite decide_False by set_solver. rewrite lookup_insert_eq.
    rewrite delete_insert_eq. do 2 f_equal.
    apply delete_id, not_elem_of_dom. set_solver.
  - by apply (Hok (false :: false :: rest)).
Qed.

(** C10 (null handle, null root, as amended): each operation returns
    without a fault on a [NULL] handle and on a handle whose [root] is
    [NULL]: search returns false, insert changes nothing and print logs
    that the tree is empty; destroy does nothing for the [NULL] handle,
    and frees the handle, and nothing else, when only the root is
    [NULL]. *)
Theorem null_tolerance
    (fuel : nat) (k : N) (h : gmap nat object) (pl : list bool)
    (lg : list (loglevel * string)) (a : nat) :
  let empty_log := lg ++ [(KERN_INFO, "B+ Tree is empty." +:+ nl)] in
  let m := Build_mem h pl lg in
  let tree := S a in
  let m' := Build_mem (<[tree := Oroot (Build_root NULL)]> h) pl lg in
  (btree_search fuel NULL k m = Ok false m ∧
   btree_insert fuel NULL k m = Ok tt m ∧
   btree_destroy fuel NULL m = Ok tt m ∧
   btree_print fuel NULL m = Ok tt (Build_mem h pl empty_log)) ∧
  (btree_search fuel tree k m' = Ok false m' ∧
   btree_insert fuel tree k m' = Ok tt m' ∧
   btree_destroy fuel tree m' = Ok tt (Build_mem (delete tree h) pl lg) ∧
   btree_print fuel tree m'
   = Ok tt (Build_mem (<[tree := Oroot (Build_root NULL)]> h) pl empty_log)).
Proof.
  cbv zeta. split; [by split_and!|].
  assert (S a ≠ NULL) as Hnz by done.
  set (tree := S a) in *.
  assert (get_root tree (Build_mem (<[tree := Oroot (Build_root NULL)]> h) pl lg)
          = Ok NULL (Build_mem (<[tree := Oroot (Build_root NULL)]> h) pl lg)) as Hroot.
  { eapply (get_root_Ok _ _ _ _ (Build_root NULL)); [done|].
    by rewrite lookup_insert_eq. }
  split_and!.
  - unfold btree_search. rewrite decide_False by done.
    eapply bind_Ok; [exact Hroot|]. done.
  - unfold btree_insert. rewrite decide_False by done.
    eapply bind_Ok; [exact Hroot|]. done.
  - unfold btree_destroy. rewrite decide_False by done.
    eapply bind_Ok; [exact Hroot|].
    eapply bind_Ok; [reflexivity|].
    unfold kfree, set_heap. simpl.
    rewrite lookup_insert_eq. by rewrite delete_insert_eq.
  - unfold btree_print. rewrite decide_False by done.
    eapply bind_Ok; [exact Hroot|]. done.
Qed.

(** C10, as stated, fails for destroy on a handle whose root is [NULL]:
    the handle at address 1 is freed, so the call is not a no-op. *)
Lemma destroy_null_root_frees_handle :
  ∃ m m',
    heap m !! 1%nat = Some (Oroot (Build_root NULL)) ∧
    btree_destroy 2 1 m = Ok tt m' ∧
    heap m' !! 1%nat = None ∧ ¬ m' = m.
Proof.
  exists (Build_mem {[1%nat := Oroot (Build_root NULL)]} [] []),
         (Build_mem ∅ [] []).
  split; [by vm_compute|]. split; [by vm_compute|]. split; [done|].
  intros Heq. apply (f_equal (λ x, heap x !! 1%nat)) in Heq. by vm_compute in Heq.
Qed.

(** * Further properties of the operations *)

(** * What the operations leave alone *)

Section read_only_facts.

Lemma read_only_ret {A} (a : A) : read_only (ret a).
Proof. by intros m. Qed.

Lemma read_only_bind {A B} (c : M A) (k : A → M B) :
  read_only c → (∀ a, read_only (k a)) → read_only (bind c k).
Proof.
  intros Hc Hk m. unfold bind. specialize (Hc m).
  destruct (c m) as [a m'| |]; [|done..]. subst m'. apply Hk.
Qed.

Lemma read_only_out_of_fuel {A} : read_only (@out_of_fuel A).
Proof. by intros m. Qed.

Lemma read_only_load_node p : read_only (load_node p).
Proof.
  intros m. unfold load_node. case_decide; [done|].
  by destruct (heap m !! p) as [[]|].
Qed.

Lemma read_only_load_root p : read_only (load_root p).
Proof.
  intros m. unfold load_root. case_decide; [done|].
  by destruct (heap m !! p) as [[]|].
Qed.

Lemma read_only_index {A} (a : list A) i : read_only (index a i).
Proof.
  intros m. unfold index. case_decide; [|done]. by destruct (a !! _).
Qed.

Lemma read_only_get_is_leaf p : read_only (get_is_leaf p).
Proof.
  apply read_only_bind; [apply read_only_load_node|]. intros. apply read_only_ret.
Qed.

Lemma read_only_get_num_keys p : read_only (get_num_keys p).
Proof.
  apply read_only_bind; [apply read_only_load_node|]. intros. apply read_only_ret.
Qed.

Lemma read_only_get_keys p i : read_only (get_keys p i).
Proof.
  apply read_only_bind; [apply read_only_load_node|]. intros. apply read_only_index.
Qed.

Lemma read_only_get_children p i : read_only (get_children p i).
Proof.
  apply read_only_bind; [apply read_only_load_node|]. intros. apply read_only_index.
Qed.

Lemma read_only_get_root p : read_only (get_root p).
Proof.
  apply read_only_bind; [apply read_only_load_root|]. intros. apply read_only_ret.
Qed.

Lemma read_only_search_for fuel node key i :
  read_only (search_for fuel node key i).
Proof.
  revert i. induction fuel as [|fuel IH]; intros i; [apply read_only_out_of_fuel|].
  simpl. apply read_only_bind; [apply read_only_get_num_keys|]. intros nk.
  case_decide; [|apply read_only_ret].
  apply read_only_bind; [apply read_only_get_keys|]. intros ki.
  repeat case_decide; first [apply read_only_ret | apply IH].
Qed.

Lemma read_only_search_while fuel node key :
  read_only (search_while fuel node key).
Proof.
  revert node. induction fuel as [|fuel IH]; intros node;
    [apply read_only_out_of_fuel|].
  simpl. apply read_only_bind; [apply read_only_search_for|]. intros [i|].
  - apply read_only_bind; [apply read_only_get_is_leaf|]. intros [|].
    + apply read_only_ret.
    + apply read_only_bind; [apply read_only_get_children|]. intros c. apply IH.
  - apply read_only_ret.
Qed.

End read_only_facts.

(** X1: [btree_search] never writes: from any state whatever, with any
    handle, when it returns, the heap, the outcomes of the coming
    allocations and the log are those it was started with. *)
Theorem btree_search_read_only (fuel : nat) (tree : nat) (key : N) :
  read_only (btree_search fuel tree key).
Proof.
  unfold btree_search. case_decide; [apply read_only_ret|].
  apply read_only_bind; [apply read_only_get_root|]. intros r.
  case_decide; [apply read_only_ret|]. apply read_only_search_while.
Qed.

Section log_only_facts.

Lemma log_only_ret {A} (a : A) : log_only (ret a).
Proof. intros m. simpl. split_and!; [done..|]. exists []. by rewrite app_nil_r. Qed.

Lemma log_only_bind {A B} (c : M A) (k : A → M B) :
  log_only c → (∀ a, log_only (k a)) → log_only (bind c k).
Proof.
  intros Hc Hk m. unfold bind. specialize (Hc m).
  destruct (c m) as [a m'| |]; [|done..]. destruct Hc as (Hh & Hp & l & Hl).
  specialize (Hk a m'). destruct (k a m') as [b m''| |]; [|done..].
  destruct Hk as (Hh' & Hp' & l' & Hl').
  split_and!; [congruence..|]. exists (l ++ l'). by rewrite Hl', Hl, app_assoc.
Qed.

Lemma read_only_log_only {A} (c : M A) : read_only c → log_only c.
Proof.
  intros Hc m. specialize (Hc m). destruct (c m) as [a m'| |]; [|done..].
  subst m'. split_and!; [done..|]. exists []. by rewrite app_nil_r.
Qed.

Lemma log_only_printk lvl s : log_only (printk lvl s).
Proof. intros m. simpl. split_and!; [done..|]. by eexists. Qed.

Lemma log_only_print_keys fuel node l r i :
  log_only (print_keys fuel node l r i).
Proof.
  revert i. induction fuel as [|fuel IH]; intros i; [by intros m|].
  simpl. apply log_only_bind; [apply read_only_log_only, read_only_get_num_keys|].
  intros nk. case_decide; [|apply log_only_ret].
  apply log_only_bind; [apply read_only_log_only, read_only_get_keys|]. intros k.
  apply log_only_bind; [apply log_only_printk|]. intros _. apply IH.
Qed.

Lemma log_only_print_recursive fuel node level :
  log_only (btree_print_recursive fuel node level).
Proof.
  revert node level. induction fuel as [|fuel IH]; intros node level; [by intros m; cbv|].
  cbn [btree_print_recursive]. case_decide; [apply log_only_ret|].
  apply log_only_bind; [apply read_only_log_only, read_only_get_is_leaf|].
  intros [|].
  - apply log_only_bind; [apply log_only_printk|]. intros _.
    apply log_only_bind; [apply log_only_print_keys|]. intros _.
    apply log_only_printk.
  - apply log_only_bind; [apply log_only_printk|]. intros _.
    apply log_only_bind; [apply log_only_print_keys|]. intros _.
    apply log_only_bind; [apply log_only_printk|]. intros _.
    generalize 0. generalize fuel at 2. intros n.
    induction n as [|n IHn]; intros i; [by intros m|].
    apply log_only_bind; [apply read_only_log_only, read_only_get_num_keys|].
    intros nk. case_decide; [|apply log_only_ret].
    apply log_only_bind; [apply read_only_log_only, read_only_get_children|].
    intros c. apply log_only_bind; [apply IH|]. intros _. apply IHn.
Qed.

End log_only_facts.

(** X2: [btree_print] only logs: from any state whatever, when it
    returns, the heap and the outcomes of the coming allocations are
    unchanged and the log is the old log with lines added at its end. *)
Theorem btree_print_log_only (fuel : nat) (tree : nat) :
  log_only (btree_print fuel tree).
Proof.
  unfold btree_print. case_decide; [apply log_only_printk|].
  apply log_only_bind; [apply read_only_log_only, read_only_get_root|].
  intros r. case_decide; [apply log_only_printk|].
  apply log_only_bind; [apply log_only_printk|]. intros _.
  apply log_only_bind; [apply log_only_print_recursive|]. intros _.
  apply log_only_printk.
Qed.

Lemma example_tree_at pl lg :
  tree_at (Build_mem example_heap pl lg) 1 example_tree.
Proof.
  split_and!; [done|done| |apply (bool_decide_unpack _); by vm_compute].
  eapply (rep_node _ _ _ _ _
            (Build_node false 1 [20; 0; 0]%N [2%nat; 4%nat; NULL; NULL]));
    try done.
  repeat constructor.
  - by eapply (rep_node _ _ _ _ _
            (Build_node true 1 [10; 20; 30]%N [NULL; NULL; NULL; NULL])).
  - by eapply (rep_node _ _ _ _ _
            (Build_node true 3 [30; 40; 50]%N [NULL; NULL; NULL; NULL])).
Qed.

Lemma example_tree_shape : shape (erase example_tree).
Proof.
  unfold example_tree. rewrite !erase_Pt. simpl. constructor; [rewrite MAX_val; simpl; lia|done|].
  repeat constructor; rewrite MAX_val; simpl; lia.
Qed.

Lemma example_tree_sorted : sorted (inorder (erase example_tree)).
Proof.
  change (inorder (erase example_tree)) with [10; 20; 30; 40; 50]%N.
  repeat constructor; lia.
Qed.

(** X3: in any state in which the handle owns a well-formed tree whose
    in-order listing is sorted, whatever else the heap holds,
    [btree_search] returns whether the key is in the listing, and leaves
    the state as it was. *)
Theorem btree_search_spec
    (t : ptree) (h : gmap nat object) (pl : list bool)
    (lg : list (loglevel * string)) (tree : nat) (k : N) (fuel : nat) :
  tree_at (Build_mem h pl lg) tree t →
  shape (erase t) → sorted (inorder (erase t)) →
  (height (erase t) + 4 ≤ fuel)%nat →
  btree_search fuel tree k (Build_mem h pl lg)
  = Ok (bool_decide (k ∈ inorder (erase t))) (Build_mem h pl lg).
Proof.
  intros Ht Hsh Hso Hfuel.
  rewrite (btree_search_refines (height (erase t)) t); [|done|done|done|done].
  f_equal. destruct (search _ (erase t) k) eqn:Hs; symmetry.
  - apply bool_decide_eq_true. by eapply search_sound.
  - apply bool_decide_eq_false. intros Hin.
    by rewrite (search_complete _ _ _ Hsh Hso (Nat.le_refl _) Hin) in Hs.
Qed.

Lemma btree_search_spec_witness :
  btree_search 6 1 40%N (Build_mem example_heap [] [])
  = Ok (bool_decide (40%N ∈ inorder (erase example_tree)))
       (Build_mem example_heap [] []).
Proof.
  exact (btree_search_spec example_tree example_heap [] [] 1 40%N 6
           (example_tree_at [] []) example_tree_shape example_tree_sorted
           ltac:(vm_compute; lia)).
Defined.

(** X4: after the keys [ks] were inserted into a new tree, the in-order
    listing of the whole tree in the heap ([shape]) is [ks] sorted: it is
    in non-decreasing order and holds each key as many times as it was
    inserted. *)
Theorem build_listing (ks : list N) (extra : nat) :
  ∃ tree m t,
    build (length ks + 7 + extra) ks empty_mem = Ok tree m ∧
    tree_at m tree t ∧ shape (erase t) ∧
    sorted (inorder (erase t)) ∧ inorder (erase t) ≡ₚ ks.
Proof.
  destruct (build_spec ks (length ks + 7 + extra)) as (tree & m & t & Hb & B);
    [lia|].
  exists tree, m, t. split_and!; [done|apply B..].
Qed.

Lemma bind_Fault {A B} (c : M A) (k : A → M B) m f :
  c m = Fault f → bind c k m = Fault f.
Proof. unfold bind. by intros ->. Qed.

(** X5: [btree_insert_nonfull] needs its node not to be full: called on
    a leaf that holds [BTREE_MAX_KEYS] keys it writes [keys[3]], one past
    the end of the array, whatever the key. *)
Theorem insert_nonfull_full_leaf_overflows
    (h : gmap nat object) (pl : list bool) (lg : list (loglevel * string))
    (fuel : nat) (node : nat) (n : btree_node) (k : N) :
  node ≠ NULL → h !! node = Some (Onode n) →
  is_leaf n = true → num_keys n = BTREE_MAX_KEYS →
  length (keys n) = Z.to_nat BTREE_MAX_KEYS →
  btree_insert_nonfull (S (S fuel)) node k (Build_mem h pl lg)
  = Fault OutOfBounds.
Proof.
  intros Hnode Hh Hlf Hnk Hlen.
  assert (∀ v, set_keys node 3 v (Build_mem h pl lg) = Fault OutOfBounds) as Hoob.
  { intros v. unfold set_keys.
    eapply bind_Ok; [by eapply load_node_Ok|].
    unfold bind, update. rewrite decide_False; [done|].
    rewrite Hlen. change (Z.to_nat BTREE_MAX_KEYS) with 3%nat. lia. }
  destruct (lookup_lt_is_Some_2 (keys n) 2) as [c Hc].
  { rewrite Hlen. change (Z.to_nat BTREE_MAX_KEYS) with 3%nat. lia. }
  cbn [btree_insert_nonfull].
  eapply bind_Ok; [by eapply get_num_keys_Ok|].
  eapply bind_Ok; [by eapply get_is_leaf_Ok|].
  rewrite Hlf, Hnk. change BTREE_MAX_KEYS with 3.
  cbn [leaf_shift]. rewrite decide_True by lia.
  destruct (decide (k < c)%N) as [Hlt|Hge].
  - apply bind_Fault.
    eapply bind_Ok; [by eapply get_keys_Ok|].
    rewrite decide_True by done. apply bind_Fault, Hoob.
  - eapply bind_Ok.
    { eapply bind_Ok; [by eapply get_keys_Ok|].
      rewrite decide_False by done. reflexivity. }
    apply bind_Fault, Hoob.
Qed.

Lemma insert_nonfull_full_leaf_overflows_witness :
  btree_insert_nonfull 2 2 0%N (Build_mem full_root_heap [] [])
  = Fault OutOfBounds.
Proof.
  exact (insert_nonfull_full_leaf_overflows full_root_heap [] [] 0 2
           (Build_node true 3 [10; 20; 30]%N [NULL; NULL; NULL; NULL]) 0%N
           ltac:(done) ltac:(done) ltac:(done) ltac:(done) ltac:(done)).
Defined.

Lemma btree_init_run h pl lg :
  head pl ≠ Some true → head (tail pl) ≠ Some true →
  ∃ tree r,
    tree ≠ NULL ∧ r ≠ NULL ∧ tree ≠ r ∧ h !! tree = None ∧ h !! r = None ∧
    btree_init (Build_mem h pl lg)
    = Ok tree (Build_mem
        (<[r := Onode (Build_node true 0 (keys zero_node) (children zero_node))]>
           (<[tree := Oroot (Build_root r)]> h))
        (tail (tail pl)) lg).
Proof.
  intros H1 H2.
  destruct (kzalloc_Ok h pl lg (Oroot zero_root) H1) as (tree & Ht0 & Htf & Hk1).
  destruct (kzalloc_Ok (<[tree := Oroot zero_root]> h) (tail pl) lg
              (Onode zero_node) H2) as (r & Hr0 & Hrf & Hk2).
  assert (tree ≠ r) as Hne.
  { intros ->. by rewrite lookup_insert_eq in Hrf. }
  rewrite lookup_insert_ne in Hrf by done.
  exists tree, r. split_and!; try done.
  unfold btree_init.
  eapply bind_Ok; [exact Hk1|]. rewrite decide_False by done.
  eapply bind_Ok; [exact Hk2|]. rewrite decide_False by done.
  eapply bind_Ok; [solve [run]|].
  eapply bind_Ok; [solve [run]|].
  eapply bind_Ok; [solve [run]|].
  unfold ret. f_equal. f_equal.
  rewrite (insert_insert_ne _ tree r) by done.
  by rewrite insert_insert_eq.
Qed.

(** X6: creating a tree and destroying it at once gives back the heap
    as it was: both objects [btree_init] allocated are freed, and nothing
    else is touched. *)
Theorem init_destroy_restores
    (h : gmap nat object) (lg : list (loglevel * string)) (fuel : nat) :
  ∃ tree m,
    btree_init (Build_mem h [] lg) = Ok tree m ∧ tree ≠ NULL ∧
    btree_destroy (S fuel) tree m = Ok tt (Build_mem h [] lg).
Proof.
  destruct (btree_init_run h [] lg) as (tree & r & Htree & Hr & Hne & Hft & Hfr & Hrun);
    [done..|].
  eexists _, _. split; [exact Hrun|]. split; [done|].
  unfold btree_destroy. rewrite decide_False by done.
  eapply bind_Ok.
  { eapply (get_root_Ok _ _ _ _ (Build_root r)); [done|].
    by rewrite lookup_insert_ne, lookup_insert_eq. }
  simpl. rewrite decide_True by done.
  eapply bind_Ok.
  { eapply bind_Ok.
    { eapply get_is_leaf_Ok; [done|]. by rewrite lookup_insert_eq. }
    simpl. eapply bind_Ok; [reflexivity|].
    unfold kfree, set_heap. simpl. rewrite decide_False by done.
    rewrite lookup_insert_eq. rewrite delete_insert_eq. reflexivity. }
  rewrite delete_id by (by rewrite lookup_insert_ne).
  unfold kfree, set_heap. simpl. rewrite decide_False by done.
  rewrite lookup_insert_eq, delete_insert_eq. by rewrite delete_id.
Qed.

(** * Destroying a tree *)

Section destroy.

Context (pl : list bool) (lg : list (loglevel * string)).

Lemma freed_nil h : freed h h [].
Proof. split; [by intros p ?%elem_of_nil | done]. Qed.

Lemma freed_app h h1 h2 l1 l2 :
  freed h h1 l1 → freed h1 h2 l2 → freed h h2 (l1 ++ l2).
Proof.
  intros [Hn1 Hs1] [Hn2 Hs2]. split.
  - intros p Hp. destruct (decide (p ∈ l2)) as [?|Hp2]; [by apply Hn2|].
    rewrite Hs2 by done. apply Hn1. set_solver.
  - intros p Hp. rewrite Hs2, Hs1; [done|set_solver..].
Qed.

Lemma freed_delete h a : freed h (delete a h) [a].
Proof.
  split.
  - intros p ->%list_elem_of_singleton. apply lookup_delete_eq.
  - intros p Hp. apply lookup_delete_ne. set_solver.
Qed.

Lemma height_pos_child lf ks cs j c :
  cs !! j = Some c → (height c < height (Bt lf ks cs))%nat.
Proof.
  intros Hc.
  assert (height (Bt lf ks cs) ≤ S (pred (height (Bt lf ks cs))))%nat as Hh
    by (simpl; lia).
  apply height_le in Hh. eapply Forall_lookup_1 in Hh; [|done].
  simpl in *. lia.
Qed.

Lemma free_node_run t :
  ∀ h fuel,
    rep h t → NoDup (addrs t) → shape (erase t) →
    (height (erase t) + 4 ≤ fuel)%nat →
    ∃ h', btree_free_node fuel (addr t) (Build_mem h pl lg)
          = Ok tt (Build_mem h' pl lg) ∧
          freed h h' (addrs t).
Proof.
  induction t as [a lf ks cs IH] using ptree_ind'.
  intros h fuel Hr Hnd Hsh Hfuel.
  inversion Hr as [? ? ? ? n Ha Hn Hlf Hnk Hlk Hlc Htk Hch Hcs]; subst.
  destruct fuel as [|fuel]; [lia|].
  rewrite erase_Pt in Hsh, Hfuel. rewrite addrs_Pt in Hnd |- *.
  apply NoDup_cons in Hnd as [Hac Hnd].
  cbn [btree_free_node addr].
  destruct (is_leaf n) eqn:Hl.
  - inversion Hsh as [? ? Hcs0|]; subst. destruct cs; [|done].
    exists (delete a h). split; [|apply freed_delete].
    eapply bind_Ok; [by eapply get_is_leaf_Ok|]. rewrite Hl. cbn [negb].
    eapply bind_Ok; [reflexivity|].
    unfold kfree, set_heap. simpl. by rewrite decide_False, Hn.
  - inversion Hsh as [|? ? Hks Hlcs Hshc]; subst. rewrite length_fmap in Hlcs.
    set (loop := fix free_children (n0 : nat) (i : Z) {struct n0} : M () := _).
    assert (∀ k j hj n',
      length cs = (j + k)%nat → (k + 1 ≤ n')%nat →
      freed h hj (mjoin (addrs <$> take j cs)) →
      ∃ h', loop n' (Z.of_nat j) (Build_mem hj pl lg)
            = Ok tt (Build_mem h' pl lg) ∧
            freed h h' (mjoin (addrs <$> cs))) as Hloop.
    { induction k as [|k IHk]; intros j hj n' Hlen Hn' Hfr.
      - destruct n' as [|n']; [lia|].
        assert (hj !! a = Some (Onode n)) as Hna.
        { destruct Hfr as [_ ->]; [done|].
          intros Hin. apply Hac. rewrite <-(take_drop j cs), fmap_app, join_app.
          set_solver. }
        exists hj. split; [|by rewrite take_ge in Hfr by lia].
        unfold loop. cbn fix beta iota. fold loop.
        eapply bind_Ok; [by eapply get_num_keys_Ok|].
        by rewrite decide_False by lia.
      - destruct n' as [|n']; [lia|].
        destruct (lookup_lt_is_Some_2 cs j) as [c Hc]; [lia|].
        pose proof Hnd as Hnd'. pose proof Hac as Hac'.
        rewrite (concat_addrs_middle _ _ _ Hc) in Hnd', Hac'.
        apply NoDup_app in Hnd' as (HndA & HdA & Hnd').
        apply NoDup_app in Hnd' as (Hndc & Hdc & HndB).
        assert (hj !! a = Some (Onode n)) as Hna.
        { destruct Hfr as [_ ->]; [done|]. set_solver. }
        assert (rep hj c) as Hrc.
        { apply (rep_frame_eq h); [by eapply Forall_lookup_1 in Hcs|].
          intros p Hp. apply Hfr. intros HpA. apply (HdA p HpA). set_solver. }
        eapply Forall_lookup_1 in IH; [|done].
        destruct (IH hj fuel) as (h2 & Hrun & Hfr2); [done|done| |  |].
        { eapply Forall_lookup_1 in Hshc; [done|].
          by rewrite list_lookup_fmap, Hc. }
        { pose proof (height_pos_child false ks (erase <$> cs) j (erase c)) as Hlt.
          rewrite list_lookup_fmap, Hc in Hlt. specialize (Hlt eq_refl). lia. }
        destruct (IHk (S j) h2 n') as (h' & Hrun' & Hfr'); [lia|lia| |].
        { rewrite (take_S_r _ _ _ Hc), fmap_app, join_app. simpl.
          rewrite app_nil_r. by eapply freed_app. }
        exists h'. split; [|done].
        unfold loop. cbn fix beta iota. fold loop.
        eapply bind_Ok; [by eapply get_num_keys_Ok|].
        rewrite decide_True by lia.
        eapply bind_Ok.
        { eapply get_children_Ok; [done|done|lia|].
          rewrite Nat2Z.id. rewrite <-(lookup_take_lt _ (length cs)) by lia.
          by rewrite Hch, list_lookup_fmap, Hc. }
        rewrite decide_True by (by eapply rep_addr_nonnull).
        eapply bind_Ok; [exact Hrun|].
        replace (Z.of_nat j + 1) with (Z.of_nat (S j)) by lia. exact Hrun'. }
    destruct (Hloop (length cs) 0%nat h fuel) as (h1 & Hrun1 & Hfr1);
      [done| |apply freed_nil|].
    { destruct cs as [|c0 cs0]; [done|].
      pose proof (height_pos_child false ks (erase <$> c0 :: cs0) 0 (erase c0)
                    eq_refl).
      pose proof (height_pos (erase c0)). rewrite MAX_val in Hks.
      simpl in Hlcs. simpl length. lia. }
    exists (delete a h1). split.
    + eapply bind_Ok; [by eapply get_is_leaf_Ok|]. rewrite Hl. cbn [negb].
      eapply bind_Ok; [exact Hrun1|].
      unfold kfree, set_heap. simpl. rewrite decide_False by done.
      rewrite (proj2 Hfr1) by done. by rewrite Hn.
    + change (a :: mjoin (addrs <$> cs)) with ([a] ++ mjoin (addrs <$> cs)).
      split.
      * intros p [->%list_elem_of_singleton|Hp]%elem_of_app.
        -- apply lookup_delete_eq.
        -- destruct (decide (a = p)) as [->|]; [apply lookup_delete_eq|].
           rewrite lookup_delete_ne by done. by apply Hfr1.
      * intros p Hp. rewrite lookup_delete_ne by set_solver.
        apply Hfr1. set_solver.
Qed.

End destroy.

Lemma free_tree_run pl lg t h tree fuel :
  tree_at (Build_mem h pl lg) tree t → shape (erase t) →
  (height (erase t) + 4 ≤ fuel)%nat →
  ∃ h',
    btree_destroy fuel tree (Build_mem h pl lg) = Ok tt (Build_mem h' pl lg) ∧
    (∀ p, p ∈ tree :: addrs t → h' !! p = None) ∧
    (∀ p, p ∉ tree :: addrs t → h' !! p = h !! p).
Proof.
  intros (Htree & Hh & Hr & Hnd) Hsh Hfuel. simpl in Hh, Hr.
  destruct (free_node_run pl lg t h fuel Hr Hnd Hsh Hfuel) as (h1 & Hrun & Hf1 & Hs1).
  assert (tree ∉ addrs t) as Hnin by (by eapply handle_not_node).
  exists (delete tree h1). split_and!.
  - unfold btree_destroy. rewrite decide_False by done.
    eapply bind_Ok.
    { by eapply (get_root_Ok _ _ _ _ (Build_root (addr t))). }
    simpl. rewrite decide_True by (by eapply rep_addr_nonnull).
    eapply bind_Ok; [exact Hrun|].
    unfold kfree, set_heap. simpl. rewrite decide_False by done.
    by rewrite Hs1, Hh.
  - intros p [->|Hp]%elem_of_cons; [apply lookup_delete_eq|].
    rewrite lookup_delete_ne by (by intros ->). by apply Hf1.
  - intros p Hp. rewrite lookup_delete_ne by set_solver. apply Hs1. set_solver.
Qed.

(** X7: [btree_destroy] on a handle that owns a well-formed tree returns
    and frees the handle and every node of the tree, each once; every
    other object of the heap, the outcomes of the coming allocations and
    the log are left as they were. *)
Theorem btree_destroy_frees_tree
    (t : ptree) (h : gmap nat object) (pl : list bool)
    (lg : list (loglevel * string)) (tree : nat) (fuel : nat) :
  tree_at (Build_mem h pl lg) tree t → shape (erase t) →
  (height (erase t) + 4 ≤ fuel)%nat →
  ∃ h',
    btree_destroy fuel tree (Build_mem h pl lg) = Ok tt (Build_mem h' pl lg) ∧
    (∀ p, p ∈ tree :: addrs t → h' !! p = None) ∧
    (∀ p, p ∉ tree :: addrs t → h' !! p = h !! p).
Proof. apply free_tree_run. Qed.

Lemma btree_destroy_frees_tree_witness :
  ∃ h',
    btree_destroy 6 1 (Build_mem example_heap [] []) = Ok tt (Build_mem h' [] []) ∧
    (∀ p, p ∈ 1%nat :: addrs example_tree → h' !! p = None) ∧
    (∀ p, p ∉ 1%nat :: addrs example_tree → h' !! p = example_heap !! p).
Proof.
  exact (btree_destroy_frees_tree example_tree example_heap [] [] 1 6
           (example_tree_at [] []) example_tree_shape ltac:(vm_compute; lia)).
Defined.

(** * Printing a tree *)

Section print.

Context (h : gmap nat object) (pl : list bool).

Lemma render_Bt lf ks cs level :
  render (Bt lf ks cs) level
  = if lf then
      (KERN_INFO, pad level +:+ "Leaf Node: ")
        :: render_keys "" " " ks ++ [(KERN_CONT, nl)]
    else
      (KERN_INFO, pad level +:+ "Internal Node: ")
        :: render_keys "[" "] " ks ++ [(KERN_CONT, nl)]
        ++ mjoin ((λ c, render c (level + 1)) <$> cs).
Proof. done. Qed.

Lemma print_keys_run a n ks l r :
  a ≠ NULL → h !! a = Some (Onode n) →
  num_keys n = Z.of_nat (length ks) → take (length ks) (keys n) = ks →
  ∀ k i lg fuel,
    length ks = (i + k)%nat → (k + 1 ≤ fuel)%nat →
    print_keys fuel a l r (Z.of_nat i) (Build_mem h pl lg)
    = Ok tt (Build_mem h pl (lg ++ render_keys l r (drop i ks))).
Proof.
  intros Ha Hn Hnk Htk.
  induction k as [|k IHk]; intros i lg fuel Hlen Hfuel;
    (destruct fuel as [|fuel]; [lia|]); cbn [print_keys].
  - eapply bind_Ok; [by eapply get_num_keys_Ok|].
    rewrite decide_False by lia. rewrite drop_ge by lia.
    unfold render_keys. simpl. by rewrite app_nil_r.
  - destruct (lookup_lt_is_Some_2 ks i) as [x Hx]; [lia|].
    eapply bind_Ok; [by eapply get_num_keys_Ok|].
    rewrite decide_True by lia.
    eapply bind_Ok.
    { eapply get_keys_Ok; [done|done|lia|]. rewrite Nat2Z.id.
      rewrite <-(lookup_take_lt _ (length ks)) by lia. by rewrite Htk. }
    eapply bind_Ok; [reflexivity|]. simpl.
    replace (Z.of_nat i + 1) with (Z.of_nat (S i)) by lia.
    rewrite IHk by lia. rewrite (drop_S _ _ _ Hx).
    unfold render_keys. rewrite fmap_cons. by rewrite <-app_assoc.
Qed.

Lemma print_recursive_run t :
  ∀ lg level fuel,
    rep h t → shape (erase t) → (height (erase t) + 4 ≤ fuel)%nat →
    btree_print_recursive fuel (addr t) level (Build_mem h pl lg)
    = Ok tt (Build_mem h pl (lg ++ render (erase t) level)).
Proof.
  induction t as [a lf ks cs IH] using ptree_ind'.
  intros lg level fuel Hr Hsh Hfuel.
  inversion Hr as [? ? ? ? n Ha Hn Hlf Hnk Hlk Hlc Htk Hch Hcs]; subst.
  destruct fuel as [|fuel]; [lia|].
  rewrite erase_Pt in Hsh, Hfuel |- *. rewrite render_Bt.
  assert (4 ≤ fuel)%nat as Hf4.
  { pose proof (height_pos (Bt (is_leaf n) ks (erase <$> cs))). lia. }
  cbn [btree_print_recursive addr]. rewrite decide_False by done.
  eapply bind_Ok; [by eapply get_is_leaf_Ok|].
  pose proof (print_keys_run a n ks) as Hkeys.
  destruct (is_leaf n) eqn:Hl.
  - eapply bind_Ok; [reflexivity|].
    eapply bind_Ok.
    { apply (Hkeys "" " " Ha Hn Hnk Htk (length ks) 0%nat); [done|].
      inversion Hsh; subst. rewrite MAX_val in *. lia. }
    simpl. unfold printk. simpl. rewrite drop_0.
    by rewrite <-!app_assoc.
  - inversion Hsh as [|? ? Hks Hlcs Hshc]; subst. rewrite length_fmap in Hlcs.
    rewrite MAX_val in Hks.
    eapply bind_Ok; [reflexivity|].
    eapply bind_Ok.
    { apply (Hkeys "[" "] " Ha Hn Hnk Htk (length ks) 0%nat); [done|lia]. }
    eapply bind_Ok; [reflexivity|]. simpl dmesg. simpl heap. simpl kzalloc_fails.
    rewrite drop_0.
    set (loop := fix print_children (n0 : nat) (i : Z) {struct n0} : M () := _).
    assert (∀ k j lg' n',
      length cs = (j + k)%nat → (k + 1 ≤ n')%nat →
      loop n' (Z.of_nat j) (Build_mem h pl lg')
      = Ok tt (Build_mem h pl
          (lg' ++ mjoin ((λ c, render c (level + 1)) <$> (erase <$> drop j cs)))))
      as Hloop.
    { induction k as [|k IHk]; intros j lg' n' Hlen Hn';
        (destruct n' as [|n']; [lia|]);
        unfold loop; cbn fix beta iota; fold loop.
      - eapply bind_Ok; [by eapply get_num_keys_Ok|].
        rewrite decide_False by lia. rewrite drop_ge by lia.
        simpl. by rewrite app_nil_r.
      - destruct (lookup_lt_is_Some_2 cs j) as [c Hc]; [lia|].
        eapply bind_Ok; [by eapply get_num_keys_Ok|].
        rewrite decide_True by lia.
        eapply bind_Ok.
        { eapply get_children_Ok; [done|done|lia|].
          rewrite Nat2Z.id. rewrite <-(lookup_take_lt _ (length cs)) by lia.
          by rewrite Hch, list_lookup_fmap, Hc. }
        eapply Forall_lookup_1 in IH; [|done].
        eapply bind_Ok.
        { apply IH.
          - by eapply Forall_lookup_1 in Hcs.
          - eapply Forall_lookup_1 in Hshc; [done|].
            by rewrite list_lookup_fmap, Hc.
          - pose proof (height_pos_child false ks (erase <$> cs) j (erase c))
              as Hlt.
            rewrite list_lookup_fmap, Hc in Hlt. specialize (Hlt eq_refl). lia. }
        replace (Z.of_nat j + 1) with (Z.of_nat (S j)) by lia.
        rewrite IHk by lia. rewrite (drop_S _ _ _ Hc), !fmap_cons.
        simpl. by rewrite <-app_assoc. }
    rewrite (Hloop (length cs) 0%nat); [|done|].
    2:{ destruct cs as [|c0 cs0]; [done|].
        pose proof (height_pos_child false ks (erase <$> c0 :: cs0) 0 (erase c0)
                      eq_refl).
        pose proof (height_pos (erase c0)). simpl in Hlcs. simpl length. lia. }
    rewrite drop_0.
    by rewrite <-!app_assoc.
Qed.

End print.

(** X8: [btree_print] on a handle that owns a well-formed tree returns,
    changes nothing in the heap, and adds to the log the opening line,
    the lines of the nodes and the closing line.  A node's line holds
    its keys from left to right; it comes before the lines of its
    children, which follow from left to right four spaces deeper: the
    nodes are logged parent first, not in key order. *)
Theorem btree_print_spec
    (t : ptree) (h : gmap nat object) (pl : list bool)
    (lg : list (loglevel * string)) (tree : nat) (fuel : nat) :
  tree_at (Build_mem h pl lg) tree t → shape (erase t) →
  (height (erase t) + 4 ≤ fuel)%nat →
  btree_print fuel tree (Build_mem h pl lg)
  = Ok tt (Build_mem h pl
      (lg ++ [(KERN_INFO, "---- B+ Tree Print (in-order) ----" +:+ nl)]
          ++ render (erase t) 0
          ++ [(KERN_INFO, "-----------------------------------" +:+ nl)])).
Proof.
  intros (Htree & Hh & Hr & Hnd) Hsh Hfuel. simpl in Hh, Hr.
  unfold btree_print. rewrite decide_False by done.
  eapply bind_Ok.
  { by eapply (get_root_Ok _ _ _ _ (Build_root (addr t))). }
  simpl root. rewrite decide_False by (by eapply rep_addr_nonnull).
  eapply bind_Ok; [reflexivity|].
  eapply bind_Ok; [by apply print_recursive_run|].
  unfold printk. simpl. by rewrite <-!app_assoc.
Qed.

Lemma btree_print_spec_witness :
  btree_print 6 1 (Build_mem example_heap [] [])
  = Ok tt (Build_mem example_heap []
      ([] ++ [(KERN_INFO, "---- B+ Tree Print (in-order) ----" +:+ nl)]
          ++ render (erase example_tree) 0
          ++ [(KERN_INFO, "-----------------------------------" +:+ nl)])).
Proof.
  exact (btree_print_spec example_tree example_heap [] [] 1 6
           (example_tree_at [] []) example_tree_shape ltac:(vm_compute; lia)).
Defined.

(** * Insertion in any state, and whole runs *)

(** X9: on a handle that owns a well-formed tree, in any heap, with the
    allocations succeeding, [btree_insert] returns and the handle owns a
    well-formed tree again, at most one level higher; the in-order
    listing gains the key once and stays sorted when it was; every
    object of the heap that is not the handle or a node of the tree is
    left as it was, and every object there is now was there before or is
    a node of the tree. *)
Theorem btree_insert_spec
    (t : ptree) (h : gmap nat object) (lg : list (loglevel * string))
    (tree : nat) (k : N) (fuel : nat) :
  tree_at (Build_mem h [] lg) tree t → shape (erase t) →
  (height (erase t) + 6 ≤ fuel)%nat →
  ∃ h' t',
    btree_insert fuel tree k (Build_mem h [] lg) = Ok tt (Build_mem h' [] lg) ∧
    tree_at (Build_mem h' [] lg) tree t' ∧
    shape (erase t') ∧ (height (erase t') ≤ S (height (erase t)))%nat ∧
    inorder (erase t') ≡ₚ k :: inorder (erase t) ∧
    (sorted (inorder (erase t)) → sorted (inorder (erase t'))) ∧
    (∀ p o, h !! p = Some o → p ∉ tree :: addrs t → h' !! p = Some o) ∧
    (∀ p, is_Some (h' !! p) → is_Some (h !! p) ∨ p ∈ addrs t').
Proof.
  intros Ht Hsh Hfuel.
  destruct (btree_insert_run (height (erase t)) t h lg tree k fuel)
    as (h' & t' & Hrun & Ht' & He & Hfr & _ & _ & Hex); [done..|].
  destruct (insert_facts (height (erase t)) (erase t) k Hsh (Nat.le_refl _))
    as (Hsh' & Hh' & Hins & _).
  rewrite <-He in Hsh', Hh', Hins.
  exists h', t'. split_and!; try done.
  - by eapply inserted_perm.
  - intros Hso. by eapply inserted_sorted.
Qed.

Lemma btree_insert_spec_witness :
  ∃ h' t',
    btree_insert 8 1 60%N (Build_mem example_heap [] [])
    = Ok tt (Build_mem h' [] []) ∧
    tree_at (Build_mem h' [] []) 1 t' ∧
    shape (erase t') ∧ (height (erase t') ≤ S (height (erase example_tree)))%nat ∧
    inorder (erase t') ≡ₚ 60%N :: inorder (erase example_tree) ∧
    (sorted (inorder (erase example_tree)) → sorted (inorder (erase t'))) ∧
    (∀ p o, example_heap !! p = Some o → p ∉ 1%nat :: addrs example_tree →
            h' !! p = Some o) ∧
    (∀ p, is_Some (h' !! p) → is_Some (example_heap !! p) ∨ p ∈ addrs t').
Proof.
  exact (btree_insert_spec example_tree example_heap [] 1 60%N 8
           (example_tree_at [] []) example_tree_shape ltac:(vm_compute; lia)).
Defined.

Section whole_runs.

(** What a run of [build] keeps beside [built]: nothing is logged, the
    heap holds the handle and the nodes of the tree and nothing else, and
    all leaves are on one level. *)
Lemma build_owns ks fuel :
  (length ks + 7 ≤ fuel)%nat →
  ∃ tree m t D,
    build fuel ks empty_mem = Ok tree m ∧ built ks tree m t ∧
    dmesg m = [] ∧
    (∀ p, is_Some (heap m !! p) → p ∈ tree :: addrs t) ∧
    levels D (erase t).
Proof.
  revert fuel. induction ks as [|k ks IH] using rev_ind; intros fuel Hfuel.
  { exists 1%nat,
      (Build_mem (<[2%nat := Onode (Build_node true 0 [0;0;0]%N [NULL;NULL;NULL;NULL])]>
                   (<[1%nat := Oroot (Build_root 2)]> ∅)) [] []),
      (Pt 2 true [] []), 1%nat.
    split; [by vm_compute|]. split_and!; try done.
    - split; simpl; try done.
      + unfold tree_at. simpl. split_and!; try done.
        * by eapply (rep_node _ _ _ _ _
                       (Build_node true 0 [0;0;0]%N [NULL;NULL;NULL;NULL])).
        * apply NoDup_singleton.
      + constructor. rewrite MAX_val. simpl. lia.
      + constructor.
    - intros p [o Hp]. simpl in Hp.
      destruct (decide (p = 2%nat)) as [->|]; [set_solver|].
      rewrite lookup_insert_ne in Hp by done.
      destruct (decide (p = 1%nat)) as [->|]; [set_solver|].
      by rewrite lookup_insert_ne in Hp. }
  rewrite length_app in Hfuel. simpl in Hfuel.
  destruct (IH fuel) as (tree & m & t & D & Hb & [Ht Hp Hsh Hh Hso Hk Hm] & Hlg
                         & Htight & HD); [lia|].
  destruct m as [h pl lg]. simpl in Hp, Hlg, Htight. subst pl lg.
  destruct (btree_insert_run (S (length ks)) t h [] tree k fuel)
    as (h' & t' & Hrun & Ht' & He & Hfr & _ & Hkept & Hnew);
    [done | done | done | lia |].
  destruct (insert_facts (S (length ks)) (erase t) k Hsh Hh)
    as (Hsh' & Hh' & Hins & Hm').
  destruct (levels_insert (S (length ks)) (erase t) k D Hsh Hh HD) as [HD'|HD'];
    rewrite <-He in Hsh', Hh', Hins, Hm', HD'.
  all: eexists tree, (Build_mem h' [] []), t', _.
  all: split; [rewrite (build_snoc _ _ _ _ _ Hb), Hrun; done|].
  all: split_and!; [|done| |exact HD'].
  all: try (split; try done;
            [ rewrite length_app; simpl; lia
            | by eapply inserted_sorted
            | rewrite (inserted_perm _ _ _ Hins), Hk;
              by rewrite Permutation_cons_append
            | by apply Hm' ]).
  all: intros p Hp; simpl in Hp; destruct (Hnew p Hp) as [Hold|?];
    [|by apply elem_of_cons; right];
    apply Htight, elem_of_cons in Hold as [->|Hold];
    [by apply elem_of_cons; left | apply elem_of_cons; right; by apply Hkept].
Qed.

End whole_runs.

(** X10: no leak: after any sequence of insertions into a new tree,
    [btree_destroy] returns and the heap is empty again: every object
    allocated by [btree_init] and by the insertions was freed. *)
Theorem build_destroy_frees_all (ks : list N) (extra : nat) :
  ∃ tree m,
    build (length ks + 7 + extra) ks empty_mem = Ok tree m ∧
    btree_destroy (length ks + 7 + extra) tree m = Ok tt empty_mem.
Proof.
  destruct (build_owns ks (length ks + 7 + extra))
    as (tree & m & t & D & Hb & [Ht Hp Hsh Hh Hso Hk Hm] & Hlg & Htight & _);
    [lia|].
  destruct m as [h pl lg]. simpl in Hp, Hlg, Htight. subst pl lg.
  exists tree, (Build_mem h [] []). split; [done|].
  destruct (free_tree_run [] [] t h tree (length ks + 7 + extra) Ht Hsh)
    as (h' & Hrun & Hnone & Hsame); [lia|].
  rewrite Hrun. unfold empty_mem. do 2 f_equal.
  apply map_eq. intros p. rewrite lookup_empty.
  destruct (decide (p ∈ tree :: addrs t)) as [Hin|Hnin]; [by apply Hnone|].
  rewrite Hsame by done.
  destruct (h !! p) as [o|] eqn:Ho; [|done].
  destruct Hnin. apply Htight. by rewrite Ho.
Qed.

(** X11: balance: after any sequence of insertions into a new tree all
    leaves of the whole tree in the heap ([shape]) are on the same level
    [D] (the root being on level 1), and
    [2 ^ (D - 1) ≤ length ks + 1]: the number of levels is at most one
    more than the binary logarithm of the number of keys plus one. *)
Theorem build_balanced (ks : list N) (extra : nat) :
  ∃ tree m t D,
    build (length ks + 7 + extra) ks empty_mem = Ok tree m ∧
    tree_at m tree t ∧ shape (erase t) ∧
    levels D (erase t) ∧ height (erase t) = D ∧
    (2 ^ (D - 1) ≤ length ks + 1)%nat.
Proof.
  destruct (build_owns ks (length ks + 7 + extra))
    as (tree & m & t & D & Hb & [Ht Hp Hsh Hh Hso Hk Hm] & _ & _ & HD);
    [lia|].
  exists tree, m, t, D. split_and!; [done..| |].
  - by apply levels_height.
  - rewrite <-(Permutation_length Hk). by apply levels_keys.
Qed.

(** X12: when its allocation fails, [btree_split_child] returns to its
    caller with the heap and the log as they were: nothing is split, and
    nothing tells the caller so. *)
Theorem split_child_alloc_failure
    (h : gmap nat object) (rest : list bool) (lg : list (loglevel * string))
    (fuel : nat) (parent : nat) (index : Z) (P : btree_node) (c : nat) :
  parent ≠ NULL → h !! parent = Some (Onode P) →
  0 ≤ index → children P !! Z.to_nat index = Some c →
  btree_split_child fuel parent index (Build_mem h (true :: rest) lg)
  = Ok tt (Build_mem h rest lg).
Proof.
  intros Hp HP Hi Hc. unfold btree_split_child.
  eapply bind_Ok; [by eapply get_children_Ok|].
  eapply bind_Ok; [reflexivity|]. by rewrite decide_True.
Qed.

Lemma split_child_alloc_failure_witness :
  btree_split_child 0 3 1 (Build_mem example_heap [true] [])
  = Ok tt (Build_mem example_heap [] []).
Proof.
  exact (split_child_alloc_failure example_heap [] [] 0 3 1
           (Build_node false 1 [20; 0; 0]%N [2%nat; 4%nat; NULL; NULL]) 4
           ltac:(done) ltac:(done) ltac:(lia) ltac:(done)).
Defined.

